(** * ExifStoryTeller: the incremental EXIF cataloguing pipeline of [app.py]

    A shallow embedding of the functions of [src/app.py] that the
    specification's claims are about, followed by the theorems that settle
    them.

    Conventions of the embedding.
    - A Python [float] is an IEEE-754 binary64 number: [spec_float] with
      precision 53 and maximal exponent 1024, rounded to nearest-even by
      the operations of [SpecFloat].
    - A Python [str] is a [string] whose characters are code points below 256.
    - [None] is [option]'s [None]; a Python exception is the [Raises] case of
      [outcome].
    - The sqlite table [photos] (column [filepath] is UNIQUE and every write is
      INSERT OR REPLACE) is a finite map from the path to the row; the table
      [locations] is the list of its rows in the order the engine yields them.
    - Printing, the progress bar and [commit] are not modelled where no claim
      depends on them. *)

From Stdlib Require Import ZArith QArith Ascii String Floats.SpecFloat.
From stdpp Require Import base option list strings gmap.

Local Open Scope Z_scope.

(** ** Python values: floats, exceptions *)

Module Py.

Abbreviation float := spec_float.

Definition prec : Z := 53.
Definition emax : Z := 1024.

Definition fadd : float -> float -> float := SFadd prec emax.
Definition fsub : float -> float -> float := SFsub prec emax.
Definition fmul : float -> float -> float := SFmul prec emax.
Definition fdiv : float -> float -> float := SFdiv prec emax.
Definition fsqrt : float -> float := SFsqrt prec emax.
Definition fneg : float -> float := SFopp.
Definition fabs : float -> float := SFabs.
Definition feqb : float -> float -> bool := SFeqb.
Definition fltb : float -> float -> bool := SFltb.
Definition fleb : float -> float -> bool := SFleb.

(** The float nearest to an integer (ties to even). *)
Definition of_Z (n : Z) : float := binary_normalize prec emax n 0 false.

Definition inf : float := S754_infinity false.

Definition is_nan (x : float) : bool :=
  match x with S754_nan => true | _ => false end.

Definition is_inf (x : float) : bool :=
  match x with S754_infinity _ => true | _ => false end.

Definition is_zero (x : float) : bool :=
  match x with S754_zero _ => true | _ => false end.

(** [bool(x)] of a float: every float but the two zeros is true. *)
Definition truthy (x : float) : bool := negb (is_zero x).

(** The rational number a finite float stands for. *)
Definition value (x : float) : option Q :=
  match x with
  | S754_zero _ => Some 0%Q
  | S754_finite s m e =>
      Some (Qmult (inject_Z (if s then Z.neg m else Z.pos m)) (Qpower 2 e))
  | _ => None
  end.

Inductive exn : Type :=
  | ZeroDivisionError
  | ValueError
  | OverflowError
  | IndexError
  | ExifReadError (msg : string)
  | OtherError (msg : string).

Inductive outcome (A : Type) : Type :=
  | Returns (a : A)
  | Raises (e : exn).
Arguments Returns {A} a.
Arguments Raises {A} e.

Definition bind {A B} (m : outcome A) (k : A -> outcome B) : outcome B :=
  match m with
  | Returns a => k a
  | Raises e => Raises e
  end.

(** [try: body except Exception: handler]; every member of [exn] is a
    subclass of [Exception]. *)
Definition try_except {A} (body : outcome A) (handler : exn -> outcome A)
  : outcome A :=
  match body with
  | Returns a => Returns a
  | Raises e => handler e
  end.

(** [float(n)] of an [int]. *)
Definition float_of_int (n : Z) : outcome float :=
  let x := of_Z n in
  if is_inf x then Raises OverflowError else Returns x.

(** [x / y] on floats. *)
Definition truediv (x y : float) : outcome float :=
  if is_zero y then Raises ZeroDivisionError else Returns (fdiv x y).

(** [l[i]] *)
Definition index {A} (l : list A) (i : nat) : outcome A :=
  match l !! i with
  | Some a => Returns a
  | None => Raises IndexError
  end.

(** [str(e)] of an exception, as used in the stored error messages. *)
Definition exn_str (e : exn) : string :=
  match e with
  | ZeroDivisionError => "float division by zero"
  | ValueError => "math domain error"
  | OverflowError => "int too large to convert to float"
  | IndexError => "list index out of range"
  | ExifReadError msg => msg
  | OtherError msg => msg
  end.

(** [bool(s)] of an optional string: [None] and the empty string are false. *)
Definition str_truthy (s : option string) : bool :=
  match s with
  | Some (String _ _) => true
  | _ => false
  end.

End Py.

Import Py.

Notation "'do' x <- m ; k" := (Py.bind m (fun x => k))
  (at level 20, x name, m at level 100, k at level 200).

(** ** GPS conversion *)

(** An EXIF rational as [exifread] hands it over: [num] and [den]. *)
Record Ratio : Type := { num : Z; den : Z }.

Definition ratio_to_float (r : Ratio) : outcome float :=
  do n <- float_of_int (num r);
  do d <- float_of_int (den r);
  truediv n d.

Definition ref_is_south_or_west (ref : string) : bool :=
  bool_decide (ref = "S") || bool_decide (ref = "W").

Definition dms_to_decimal (dms : list Ratio) (ref : string) : outcome float :=
  do r0 <- index dms 0;
  do degrees <- ratio_to_float r0;
  do r1 <- index dms 1;
  do minutes <- ratio_to_float r1;
  do r2 <- index dms 2;
  do seconds <- ratio_to_float r2;
  do m60 <- truediv minutes (of_Z 60);
  do s3600 <- truediv seconds (of_Z 3600);
  let dec := fadd (fadd degrees m60) s3600 in
  Returns (if ref_is_south_or_west ref then fneg dec else dec).

(** ** Location resolver *)

(** The functions of Python's [math] module that go to the platform's C
    library, and [float.__pow__]: their results are not fixed by IEEE-754, so
    the resolver takes them as a parameter.  Each is the Python-level function:
    it returns a float or raises. *)
Record MathLib : Type := {
  math_sin : float -> outcome float;
  math_cos : float -> outcome float;
  math_asin : float -> outcome float;
  float_pow : float -> float -> outcome float
}.

(** [math.pi], the double 0x1.921fb54442d18p+1. *)
Definition math_pi : float := S754_finite false 7074237752028440 (-51).

(** [math.radians(x)] is [x * (pi / 180.0)]. *)
Definition math_radians (x : float) : float :=
  fmul x (fdiv math_pi (of_Z 180)).

(** [math.sqrt(x)]: correctly rounded; a negative argument is a domain
    error. *)
Definition math_sqrt (x : float) : outcome float :=
  let r := fsqrt x in
  if is_nan r && negb (is_nan x) then Raises ValueError else Returns r.

Definition haversine_distance (M : MathLib) (lat1 lon1 lat2 lon2 : float)
  : outcome float :=
  let R := of_Z 6371 in
  let dlat := math_radians (fsub lat2 lat1) in
  let dlon := math_radians (fsub lon2 lon1) in
  do hlat <- truediv dlat (of_Z 2);
  do s1 <- math_sin M hlat;
  do s1sq <- float_pow M s1 (of_Z 2);
  do c1 <- math_cos M (math_radians lat1);
  do c2 <- math_cos M (math_radians lat2);
  do hlon <- truediv dlon (of_Z 2);
  do s2 <- math_sin M hlon;
  do s2sq <- float_pow M s2 (of_Z 2);
  let a := fadd s1sq (fmul (fmul c1 c2) s2sq) in
  do rt <- math_sqrt a;
  do as_ <- math_asin M rt;
  let c := fmul (of_Z 2) as_ in
  Returns (fmul R c).

(** A row of the table [locations]. *)
Record LocationRow : Type := {
  geonameid : Z;
  name : option string;
  asciiname : option string;
  latitude : float;
  longitude : float;
  feature_class : option string;
  feature_code : option string;
  country_code : option string;
  admin1_code : option string;
  admin2_code : option string
}.

(** [", ".join(parts)] *)
Fixpoint join_comma (parts : list string) : string :=
  match parts with
  | [] => EmptyString
  | [p] => p
  | p :: rest => p +:+ ", " +:+ join_comma rest
  end.

Definition format_location_string (name admin1_code country_code : option string)
  : option string :=
  if negb (str_truthy name) then None
  else
    let parts := [default EmptyString name] in
    let parts :=
      if str_truthy admin1_code then parts ++ [default EmptyString admin1_code]
      else parts in
    let parts :=
      if str_truthy country_code then parts ++ [default EmptyString country_code]
      else parts in
    Some (join_comma parts).

(** [x BETWEEN lo AND hi] on REAL values; a NaN stands for SQL's NULL and
    satisfies no comparison. *)
Definition between (x lo hi : float) : bool := fleb lo x && fleb x hi.

(** The bounding-box SELECT: the rows inside the box, in the engine's order. *)
Definition select_box (rows : list LocationRow)
    (lat_lo lat_hi lon_lo lon_hi : float) : list LocationRow :=
  filter (fun r => between (latitude r) lat_lo lat_hi
                   && between (longitude r) lon_lo lon_hi = true) rows.

(** The place data the scan remembers: [(name, admin1_code, country_code)]. *)
Definition place : Type := (option string * option string * option string)%type.

Definition place_of (r : LocationRow) : place :=
  (name r, admin1_code r, country_code r).

(** What the candidate loop leaves behind: it either runs to its end or to
    its [break] with [(min_distance, nearest_location_data)], or leaves the
    function by [return None] when a shutdown was requested. *)
Inductive scan_result : Type :=
  | ScanDone (min_distance : float) (nearest : option place)
  | ScanShutdown.

(** The literal [0.5]. *)
Definition half_km : float := S754_finite false 4503599627370496 (-53).

(** The [for ... in candidates] loop.  [shutdown k] is the value of the global
    flag [shutdown_requested] at the [k]-th time the function reads it. *)
Fixpoint scan_candidates (M : MathLib) (lat lon : float) (shutdown : nat -> bool)
    (k : nat) (candidates : list LocationRow)
    (min_distance : float) (nearest : option place) : outcome scan_result :=
  match candidates with
  | [] => Returns (ScanDone min_distance nearest)
  | c :: rest =>
      if shutdown k then Returns ScanShutdown
      else
        do distance <- haversine_distance M lat lon (latitude c) (longitude c);
        if fltb distance min_distance then
          if fltb distance half_km
          then Returns (ScanDone distance (Some (place_of c)))
          else scan_candidates M lat lon shutdown (S k) rest
                 distance (Some (place_of c))
        else scan_candidates M lat lon shutdown (S k) rest min_distance nearest
  end.

(** The two buffers of the bounding box: [(lat_buffer, lon_buffer)]. *)
Definition box_buffers (M : MathLib) (lat max_distance_km : float)
  : outcome (float * float) :=
  do lat_buffer <- truediv max_distance_km (of_Z 111);
  do cos_lat <- math_cos M (math_radians lat);
  do lon_buffer <- truediv max_distance_km (fmul (of_Z 111) (fabs cos_lat));
  Returns (lat_buffer, lon_buffer).

(** The rows [cursor.fetchall()] returns for given buffers. *)
Definition box_candidates (rows : list LocationRow) (lat lon : float)
    (buffers : float * float) : list LocationRow :=
  select_box rows (fsub lat (fst buffers)) (fadd lat (fst buffers))
                  (fsub lon (snd buffers)) (fadd lon (snd buffers)).

(** The final [if min_distance <= max_distance_km and nearest_location_data]. *)
Definition nearest_within (r : scan_result) (max_distance_km : float)
  : option string :=
  match r with
  | ScanShutdown => None
  | ScanDone min_distance (Some (name, admin1_code, country_code)) =>
      if fleb min_distance max_distance_km
      then format_location_string name admin1_code country_code
      else None
  | ScanDone _ None => None
  end.

Definition find_nearest_location_body (M : MathLib) (lat lon : float)
    (rows : list LocationRow) (max_distance_km : float)
    (shutdown : nat -> bool) : outcome (option string) :=
  if shutdown 0%nat then Returns None
  else
    do buffers <- box_buffers M lat max_distance_km;
    let candidates := box_candidates rows lat lon buffers in
    match candidates with
    | [] => Returns None
    | _ =>
        do r <- scan_candidates M lat lon shutdown 1%nat candidates inf None;
        Returns (nearest_within r max_distance_km)
    end.

(** The whole body is inside [try: ... except Exception: print; return None]. *)
Definition find_nearest_location (M : MathLib) (lat lon : float)
    (rows : list LocationRow) (max_distance_km : float)
    (shutdown : nat -> bool) : outcome (option string) :=
  try_except (find_nearest_location_body M lat lon rows max_distance_km shutdown)
             (fun _ => Returns None).

(** *** Reference resolvers the claims compare the code with *)


(** The resolver a reader of the specification expects at the poles: no
    horizontal buffer, that is a box of zero width in longitude. *)
Definition find_nearest_location_degenerate (M : MathLib) (lat lon : float)
    (rows : list LocationRow) (max_distance_km : float)
    (shutdown : nat -> bool) : outcome (option string) :=
  try_except
    (if shutdown 0%nat then Returns None
     else
       do lat_buffer <- truediv max_distance_km (of_Z 111);
       let candidates :=
         box_candidates rows lat lon (lat_buffer, S754_zero false) in
       match candidates with
       | [] => Returns None
       | _ =>
           do r <- scan_candidates M lat lon shutdown 1%nat candidates inf None;
           Returns (nearest_within r max_distance_km)
       end)
    (fun _ => Returns None).

(** *** A tabulated math library for the worked examples

    The values CPython returns on x86-64 Linux at the arguments the examples
    of this file evaluate; any other argument raises. *)

#[global] Instance float_eq_dec : EqDecision float.
Proof. solve_decision. Defined.

Definition tabulated (table : list (float * float)) (x : float) : outcome float :=
  match list_find (fun p => fst p = x) table with
  | Some (_, (_, y)) => Returns y
  | None => Raises (OtherError "argument not tabulated")
  end.

Definition sin_table : list (float * float) :=
  [ (S754_zero false, S754_zero false);
    (S754_finite false 5151302725743732 (-69), S754_finite false 5151302725678350 (-69));
    (S754_finite false 8048910508974581 (-63), S754_finite false 8048909487375307 (-63));
    (S754_finite false 5030569068109113 (-59), S754_finite false 5030505218395169 (-59));
    (S754_finite false 7860264168920489 (-53), S754_finite false 6899914937159737 (-53)) ].

Definition cos_table : list (float * float) :=
  [ (S754_zero false, S754_finite false 4503599627370496 (-52));
    (S754_finite false 5151302725743732 (-68), S754_finite false 9007199253369117 (-53));
    (S754_finite false 8048910508974581 (-62), S754_finite false 9007185535995492 (-53));
    (S754_finite false 5030569068109113 (-58), S754_finite false 9005827414667146 (-53));
    (S754_finite false 7074237752028440 (-52), S754_finite false 4967757600021511 (-106)) ].

Definition asin_table : list (float * float) :=
  [ (S754_zero false, S754_zero false);
    (S754_finite false 5151302725678350 (-69), S754_finite false 5151302725743732 (-69));
    (S754_finite false 8048909487375307 (-63), S754_finite false 8048910508974581 (-63));
    (S754_finite false 5030505218395169 (-59), S754_finite false 5030569068109113 (-59));
    (S754_finite false 7611046208517098 (-107), S754_finite false 7611046208517098 (-107)) ].

Definition square_table : list (float * float) :=
  [ (S754_zero false, S754_zero false);
    (S754_finite false 5151302725678350 (-69), S754_finite false 5892157822003074 (-86));
    (S754_finite false 8048909487375307 (-63), S754_finite false 7192573640675296 (-73));
    (S754_finite false 5030505218395169 (-59), S754_finite false 5619056942474338 (-66));
    (S754_finite false 6899914937159737 (-53), S754_finite false 5285641495604849 (-53)) ].

Definition sampled_math : MathLib := {|
  math_sin := tabulated sin_table;
  math_cos := tabulated cos_table;
  math_asin := tabulated asin_table;
  float_pow := fun x y =>
    if bool_decide (y = of_Z 2) then tabulated square_table x
    else Raises (OtherError "argument not tabulated")
|}.

(** A math library whose cosine is exactly zero at [radians(90.0)], the way
    the specification reads the pole; everything else as [sampled_math]. *)
Definition zero_cos_math : MathLib := {|
  math_sin := math_sin sampled_math;
  math_cos := fun x =>
    if bool_decide (fabs x = math_radians (of_Z 90)) then Returns (S754_zero false)
    else math_cos sampled_math x;
  math_asin := math_asin sampled_math;
  float_pow := float_pow sampled_math
|}.

Definition gazetteer_row (id : Z) (nm : string) (lat lon : float) : LocationRow := {|
  geonameid := id; name := Some nm; asciiname := Some nm;
  latitude := lat; longitude := lon;
  feature_class := Some "P"; feature_code := Some "PPL";
  country_code := Some "US"; admin1_code := Some "OH"; admin2_code := None
|}.

Definition never : nat -> bool := fun _ => false.

(** ** Gazetteer import *)

Module Gazetteer.

(** Python's [int(s)] and [float(s)] on a string: [None] stands for
    [ValueError].  Their grammar is Python's, not this program's, so the
    import takes them as a parameter. *)
Record Parsers : Type := {
  py_int : string -> option Z;
  py_float : string -> option float
}.

(** [c.isspace()] for a code point below 256. *)
Definition isspace (c : ascii) : bool :=
  let n := nat_of_ascii c in
  ((9 <=? n) && (n <=? 13) || (28 <=? n) && (n <=? 32)
   || (n =? 133) || (n =? 160))%nat.

Fixpoint lstrip (s : string) : string :=
  match s with
  | EmptyString => EmptyString
  | String c rest => if isspace c then lstrip rest else s
  end.

(** [s.strip()] *)
Definition strip (s : string) : string :=
  String.rev (lstrip (String.rev (lstrip s))).

Definition tab : ascii := ascii_of_nat 9.

(** [s.split('\t')], with [acc] the field read so far. *)
Fixpoint split_tab_from (acc : string) (s : string) : list string :=
  match s with
  | EmptyString => [acc]
  | String c rest =>
      if bool_decide (c = tab) then acc :: split_tab_from EmptyString rest
      else split_tab_from (acc +:+ String c EmptyString) rest
  end.

Definition split_tab (s : string) : list string := split_tab_from EmptyString s.

(** [fields[i] if len(fields) > i else None] *)
Definition field (fields : list string) (i : nat) : option string := fields !! i.

(** [fields[i] if len(fields) > i and fields[i] else None] *)
Definition field_nonempty (fields : list string) (i : nat) : option string :=
  match fields !! i with
  | Some (String c s) => Some (String c s)
  | _ => None
  end.

(** [int(fields[0]) if fields[0] else None] *)
Definition parse_id (P : Parsers) (fields : list string) : outcome (option Z) :=
  match field_nonempty fields 0 with
  | None => Returns None
  | Some s =>
      match py_int P s with
      | Some n => Returns (Some n)
      | None => Raises ValueError
      end
  end.

(** [float(fields[i]) if len(fields) > i and fields[i] else None] *)
Definition parse_coordinate (P : Parsers) (fields : list string) (i : nat)
  : outcome (option float) :=
  match field_nonempty fields i with
  | None => Returns None
  | Some s =>
      match py_float P s with
      | Some x => Returns (Some x)
      | None => Raises ValueError
      end
  end.

(** The import's view of the store: the rows of [locations] as the open
    transaction sees them, the rows as of the last [commit], and the two
    counters. *)
Record ImportState : Type := {
  rows : list LocationRow;
  committed : list LocationRow;
  imported_count : nat;
  error_count : nat
}.

Definition commit (st : ImportState) : ImportState :=
  {| rows := rows st; committed := rows st;
     imported_count := imported_count st; error_count := error_count st |}.

Definition rollback (st : ImportState) : ImportState :=
  {| rows := committed st; committed := committed st;
     imported_count := imported_count st; error_count := error_count st |}.

Definition count_error (st : ImportState) : ImportState :=
  {| rows := rows st; committed := committed st;
     imported_count := imported_count st; error_count := S (error_count st) |}.

Definition has_id (id : Z) (l : list LocationRow) : bool :=
  existsb (fun r => geonameid r =? id) l.

(** [INSERT OR IGNORE INTO locations]: [geonameid] is the primary key; an
    integer outside sqlite's 64 bits cannot be bound and raises. *)
Definition insert_or_ignore (r : LocationRow) (st : ImportState)
  : outcome ImportState :=
  if (geonameid r <? - 2 ^ 63) || (2 ^ 63 <=? geonameid r)
  then Raises OverflowError
  else
    Returns {| rows := if has_id (geonameid r) (rows st) then rows st
                       else rows st ++ [r];
               committed := committed st;
               imported_count := S (imported_count st);
               error_count := error_count st |}.

(** The statements inside the per-line [try]. *)
Definition import_fields (P : Parsers) (fields : list string) (st : ImportState)
  : outcome ImportState :=
  do id <- parse_id P fields;
  let name := field fields 1 in
  let asciiname := field fields 2 in
  do lat <- parse_coordinate P fields 4;
  do lon <- parse_coordinate P fields 5;
  let feature_class := field fields 6 in
  let feature_code := field fields 7 in
  let country_code := field fields 8 in
  let admin1_code := field_nonempty fields 10 in
  let admin2_code := field_nonempty fields 11 in
  match id, lat, lon with
  | Some id, Some lat, Some lon =>
      if id =? 0 then Returns st
      else insert_or_ignore
             {| geonameid := id; name := name; asciiname := asciiname;
                latitude := lat; longitude := lon;
                feature_class := feature_class; feature_code := feature_code;
                country_code := country_code; admin1_code := admin1_code;
                admin2_code := admin2_code |} st
  | _, _, _ => Returns st
  end.

(** One line of the file, after the shutdown test and the periodic commit.
    [Raises] is an exception that leaves the [for] loop. *)
Definition import_line (P : Parsers) (line : string) (st : ImportState)
  : outcome ImportState :=
  let fields := split_tab (strip line) in
  if (length fields <? 9)%nat then Returns (count_error st)
  else
    match import_fields P fields st with
    | Returns st' => Returns st'
    | Raises ValueError => Returns (count_error st)
    | Raises IndexError => Returns (count_error st)
    | Raises e => Raises e
    end.

(** The [for line_num, line in enumerate(f, 1)] loop with what follows it;
    [shutdown n] is the flag when line [n] is reached. *)
Fixpoint import_lines (P : Parsers) (shutdown : N -> bool) (line_num : N)
    (lines : list string) (st : ImportState) : bool * ImportState :=
  match lines with
  | [] => (true, commit st)
  | line :: rest =>
      if shutdown line_num then (false, commit st)
      else
        let st := if (line_num mod 100000 =? 0)%N then commit st else st in
        match import_line P line st with
        | Returns st' => import_lines P shutdown (N.succ line_num) rest st'
        | Raises _ => (false, rollback st)
        end
  end.

(** [import_locations_to_db]: [table] is the content of [locations] (empty
    when the table does not exist yet) and [locations_file] the lines of the
    gazetteer file, [None] when there is no such file. *)
Definition import_locations_to_db (P : Parsers) (shutdown : N -> bool)
    (table : list LocationRow) (locations_file : option (list string))
  : bool * ImportState :=
  let st0 := {| rows := table; committed := table;
                imported_count := 0; error_count := 0 |} in
  match table with
  | _ :: _ => (true, st0)
  | [] =>
      match locations_file with
      | None => (false, st0)
      | Some lines => import_lines P shutdown 1%N lines st0
      end
  end.

(** Unsigned decimal digit strings, on which Python's [int] and [float]
    agree with the obvious reading; every other string is rejected here. *)
Fixpoint digits_value (acc : Z) (s : string) : option Z :=
  match s with
  | EmptyString => Some acc
  | String c rest =>
      let n := nat_of_ascii c in
      if ((48 <=? n) && (n <=? 57))%nat
      then digits_value (10 * acc + Z.of_nat (n - 48)) rest
      else None
  end.

Definition digits_only : Parsers := {|
  py_int := fun s =>
    match s with EmptyString => None | _ => digits_value 0 s end;
  py_float := fun s =>
    match s with EmptyString => None | _ => of_Z <$> digits_value 0 s end
|}.

End Gazetteer.

(** ** The processing pipeline *)

Module Pipeline.

(** A row of the table [photos] (without its autoincrement [id]). *)
Record PhotoRecord : Type := {
  filename : string;
  filepath : string;
  datetime : option string;
  camera_model : option string;
  lens_model : option string;
  iso : option string;
  fnumber : option string;
  exposure_time : option string;
  focal_length : option string;
  orientation : option string;
  gps_lat : option float;
  gps_lon : option float;
  location : option string;
  status : string;
  file_hash : option string;
  file_mtime : option float;
  processed_at : option string;
  error_message : option string
}.

(** A tag as [exifread] returns it: [str(tag)] and [tag.values]. *)
Record IfdTag : Type := { printable : string; values : list Ratio }.

(** What [open(filepath, 'rb')] followed by [exifread.process_file] does:
    it returns the tag dictionary or raises (whatever exception the library
    raises on the tag block, or the one [open] raises for a file that cannot
    be read). *)
Inductive ReadResult : Type :=
  | ReadTags (tags : gmap string IfdTag)
  | ReadRaises (e : exn).

(** A file on disk during one run. *)
Record FileInfo : Type := {
  mtime : option float;          (* [os.path.getmtime], [None] when it raises *)
  md5 : option string;           (* the MD5 hex digest, [None] when unreadable *)
  read : ReadResult
}.

(** The world one run sees: the files that exist, the clock while the loop
    is at index [idx] (the time the row written there carries), the flag
    [shutdown_requested] as read for the [k]-th time while the loop is at
    index [idx] (read 0 is the test at the top of the loop, the later ones
    are those of the location lookup), whether the installed [exifread]
    defines the name [ExifReadError] that the loop body refers to, and the
    exception, if any, that [INSERT OR REPLACE] of a row raises while the
    loop is at index [idx] (a path that is not valid UTF-8 cannot be bound,
    the database can be locked or full).  The periodic [conn.commit()] is
    taken to succeed. *)
Record World : Type := {
  files : gmap string FileInfo;
  now : nat -> string;
  shutdown_requested : nat -> nat -> bool;
  has_ExifReadError : bool;
  insert_raises : nat -> PhotoRecord -> option exn
}.

Definition path_exists (w : World) (p : string) : bool :=
  bool_decide (is_Some (files w !! p)).

Definition get_file_mtime (w : World) (p : string) : option float :=
  files w !! p ≫= mtime.

Definition calculate_file_hash (w : World) (p : string) : option string :=
  files w !! p ≫= md5.

Definition read_file (w : World) (p : string) : ReadResult :=
  match files w !! p with
  | Some f => read f
  | None => ReadRaises (OtherError "No such file or directory")
  end.

(** [os.path.basename] (POSIX): what follows the last slash. *)
Fixpoint basename_from (acc : string) (p : string) : string :=
  match p with
  | EmptyString => acc
  | String c rest =>
      if bool_decide (c = "/"%char) then basename_from EmptyString rest
      else basename_from (acc +:+ String c EmptyString) rest
  end.

Definition basename (p : string) : string := basename_from EmptyString p.

(** [str(tags.get(k)) if k in tags else None] (a tag object is always true). *)
Definition tag_str (tags : gmap string IfdTag) (k : string) : option string :=
  printable <$> tags !! k.

(** [str(tags.get(k))]: the string "None" for a missing tag. *)
Definition tag_ref (tags : gmap string IfdTag) (k : string) : string :=
  default "None" (tag_str tags k).

(** The GPS block: [(gps_lat, gps_lon, location, counted)], where [counted]
    tells whether [gps_count] was incremented. *)
Definition extract_gps (M : MathLib) (locations : list LocationRow)
    (skip_location_lookup : bool) (shutdown : nat -> bool)
    (tags : gmap string IfdTag)
  : option float * option float * option string * bool :=
  match tags !! "GPS GPSLatitude", tags !! "GPS GPSLongitude" with
  | Some tlat, Some tlon =>
      match dms_to_decimal (values tlat) (tag_ref tags "GPS GPSLatitudeRef") with
      | Raises _ => (None, None, None, false)
      | Returns lat =>
          match dms_to_decimal (values tlon)
                  (tag_ref tags "GPS GPSLongitudeRef") with
          | Raises _ => (Some lat, None, None, false)
          | Returns lon =>
              let location :=
                if skip_location_lookup then None
                else
                  match find_nearest_location M lat lon locations (of_Z 50)
                          shutdown with
                  | Returns l => l
                  | Raises _ => None
                  end in
              (Some lat, Some lon, location, true)
          end
      end
  | _, _ => (None, None, None, false)
  end.

(** The row written for a file whose tags were read. *)
Definition processed_record (M : MathLib) (locations : list LocationRow)
    (skip_location_lookup : bool) (shutdown : nat -> bool)
    (filepath : string) (tags : gmap string IfdTag)
    (file_hash : option string) (file_mtime : option float)
    (processed_at : string) : PhotoRecord * bool :=
  let datetime_val :=
    match tags !! "EXIF DateTimeOriginal" with
    | Some t => Some (printable t)
    | None => tag_str tags "Image DateTime"
    end in
  let '(gps_lat, gps_lon, location, counted) :=
    extract_gps M locations skip_location_lookup shutdown tags in
  ({| filename := basename filepath; filepath := filepath;
      datetime := datetime_val;
      camera_model := tag_str tags "Image Model";
      lens_model := tag_str tags "EXIF LensModel";
      iso := tag_str tags "EXIF ISOSpeedRatings";
      fnumber := tag_str tags "EXIF FNumber";
      exposure_time := tag_str tags "EXIF ExposureTime";
      focal_length := tag_str tags "EXIF FocalLength";
      orientation := tag_str tags "Image Orientation";
      gps_lat := gps_lat; gps_lon := gps_lon; location := location;
      status := "processed"; file_hash := file_hash; file_mtime := file_mtime;
      processed_at := Some processed_at; error_message := None |}, counted).

(** The row both exception handlers write. *)
Definition failed_record (filepath : string) (file_hash : option string)
    (file_mtime : option float) (processed_at : string) (error_msg : string)
  : PhotoRecord :=
  {| filename := basename filepath; filepath := filepath;
     datetime := None; camera_model := None; lens_model := None;
     iso := None; fnumber := None; exposure_time := None;
     focal_length := None; orientation := None;
     gps_lat := None; gps_lon := None; location := None;
     status := "failed"; file_hash := file_hash; file_mtime := file_mtime;
     processed_at := Some processed_at; error_message := Some error_msg |}.

(** What the loop did with one file (kept in the run's trace, which the
    source does not have: it is there to state the claims). *)
Inductive Action : Type :=
  | Missing                       (* the file vanished: counted as an error *)
  | Skipped                       (* unchanged: no extraction *)
  | Extracted (r : PhotoRecord)   (* extraction attempted, [r] written *)
  | Dropped.                      (* extraction attempted, nothing written *)

Record RunState : Type := {
  photos : gmap string PhotoRecord;
  image_count : nat;
  skipped_count : nat;
  error_count : nat;
  gps_count : nat;
  new_count : nat;
  updated_count : nat;
  trace : list (string * Action)
}.

(** [{row[0]: (row[1], row[2]) for row in SELECT filepath, file_mtime,
    file_hash FROM photos WHERE status = 'processed'}] *)
Definition processed_files_of (photos : gmap string PhotoRecord)
  : gmap string (option float * option string) :=
  omap (fun r => if bool_decide (status r = "processed")
                 then Some (file_mtime r, file_hash r) else None) photos.

(** [current_mtime and stored_mtime and current_mtime == stored_mtime] *)
Definition unchanged (current_mtime stored_mtime : option float) : bool :=
  match current_mtime, stored_mtime with
  | Some c, Some s => truthy c && truthy s && feqb c s
  | _, _ => false
  end.

(** The skip test of the loop body: [true] when the file is skipped. *)
Definition skip_file (w : World) (force_reprocess : bool)
    (processed_files : gmap string (option float * option string))
    (filepath : string) : bool :=
  if force_reprocess then false
  else
    match processed_files !! filepath with
    | Some (stored_mtime, stored_hash) =>
        unchanged (get_file_mtime w filepath) stored_mtime
    | None => false
    end.

(** Updates of the run state: the row of [filepath] is inserted or replaced
    ([filepath] is the [UNIQUE] column), a counter moves, the trace grows. *)
Definition insert_or_replace (filepath : string) (r : PhotoRecord)
    (st : RunState) : RunState :=
  {| photos := <[filepath := r]> (photos st);
     image_count := image_count st; skipped_count := skipped_count st;
     error_count := error_count st; gps_count := gps_count st;
     new_count := new_count st; updated_count := updated_count st;
     trace := trace st |}.

Definition add_image (st : RunState) : RunState :=
  {| photos := photos st;
     image_count := S (image_count st); skipped_count := skipped_count st;
     error_count := error_count st; gps_count := gps_count st;
     new_count := new_count st; updated_count := updated_count st;
     trace := trace st |}.

Definition add_skipped (st : RunState) : RunState :=
  {| photos := photos st;
     image_count := image_count st; skipped_count := S (skipped_count st);
     error_count := error_count st; gps_count := gps_count st;
     new_count := new_count st; updated_count := updated_count st;
     trace := trace st |}.

Definition add_error (st : RunState) : RunState :=
  {| photos := photos st;
     image_count := image_count st; skipped_count := skipped_count st;
     error_count := S (error_count st); gps_count := gps_count st;
     new_count := new_count st; updated_count := updated_count st;
     trace := trace st |}.

Definition add_gps (st : RunState) : RunState :=
  {| photos := photos st;
     image_count := image_count st; skipped_count := skipped_count st;
     error_count := error_count st; gps_count := S (gps_count st);
     new_count := new_count st; updated_count := updated_count st;
     trace := trace st |}.

Definition add_new (st : RunState) : RunState :=
  {| photos := photos st;
     image_count := image_count st; skipped_count := skipped_count st;
     error_count := error_count st; gps_count := gps_count st;
     new_count := S (new_count st); updated_count := updated_count st;
     trace := trace st |}.

Definition add_updated (st : RunState) : RunState :=
  {| photos := photos st;
     image_count := image_count st; skipped_count := skipped_count st;
     error_count := error_count st; gps_count := gps_count st;
     new_count := new_count st; updated_count := S (updated_count st);
     trace := trace st |}.

Definition log (filepath : string) (a : Action) (st : RunState) : RunState :=
  {| photos := photos st;
     image_count := image_count st; skipped_count := skipped_count st;
     error_count := error_count st; gps_count := gps_count st;
     new_count := new_count st; updated_count := updated_count st;
     trace := trace st ++ [(filepath, a)] |}.

(** The [AttributeError] that evaluating [exifread.ExifReadError] raises when
    the library does not define the name. *)
Definition no_ExifReadError : exn :=
  OtherError "module 'exifread' has no attribute 'ExifReadError'".

(** The rows of the two handlers. *)
Definition exif_error_row (w : World) (idx : nat) (filepath : string) (e : exn)
  : PhotoRecord :=
  failed_record filepath (calculate_file_hash w filepath)
    (get_file_mtime w filepath) (now w idx) ("EXIF read error: " +:+ exn_str e).

Definition processing_error_row (w : World) (idx : nat) (filepath : string)
    (e : exn) : PhotoRecord :=
  failed_record filepath (calculate_file_hash w filepath)
    (get_file_mtime w filepath) (now w idx) ("Processing error: " +:+ exn_str e).

(** [except Exception as e] of the loop body (lines 546-575), entered with
    [e]: the failed row is inserted and the error counted; when the insert
    raises, [except Exception as db_error: pass] leaves everything as it
    is. *)
Definition handle_exception (w : World) (idx : nat) (filepath : string)
    (e : exn) (st : RunState) : RunState :=
  let r := processing_error_row w idx filepath e in
  match insert_raises w idx r with
  | None => log filepath (Extracted r) (add_error (insert_or_replace filepath r st))
  | Some _ => log filepath Dropped st
  end.

(** An exception [e] leaves the body of the inner [try]:
    [except exifread.ExifReadError as e] (lines 518-544) is tried first.
    Evaluating the name raises [AttributeError] when the library does not
    define it; an exception of another class, and one the handler itself
    raises, goes on to the outer handler. *)
Definition except_ExifReadError (w : World) (idx : nat) (filepath : string)
    (e : exn) (st : RunState) : RunState :=
  if has_ExifReadError w then
    match e with
    | ExifReadError _ =>
        let r := exif_error_row w idx filepath e in
        match insert_raises w idx r with
        | None =>
            log filepath (Extracted r)
              (add_error (insert_or_replace filepath r st))
        | Some e' => handle_exception w idx filepath e' st
        end
    | _ => handle_exception w idx filepath e st
    end
  else handle_exception w idx filepath no_ExifReadError st.

(** The body of the [for idx, filepath in enumerate(all_image_files, 1)] loop
    after the shutdown test. *)
Definition process_file (M : MathLib) (w : World)
    (locations : list LocationRow) (force_reprocess skip_location_lookup : bool)
    (processed_files : gmap string (option float * option string))
    (idx : nat) (filepath : string) (st : RunState) : RunState :=
  if negb (path_exists w filepath) then log filepath Missing (add_error st)
  else if skip_file w force_reprocess processed_files filepath then
    log filepath Skipped (add_skipped st)
  else
    let st :=
      if negb force_reprocess && bool_decide (is_Some (processed_files !! filepath))
      then add_updated st else st in
    let file_hash := calculate_file_hash w filepath in
    let file_mtime := get_file_mtime w filepath in
    match read_file w filepath with
    | ReadTags tags =>
        let '(r, counted) :=
          processed_record M locations skip_location_lookup
            (fun k => shutdown_requested w idx (S k))
            filepath tags file_hash file_mtime (now w idx) in
        let st := if counted then add_gps st else st in
        match insert_raises w idx r with
        | None =>
            let st := add_image (insert_or_replace filepath r st) in
            let st :=
              if bool_decide (is_Some (processed_files !! filepath)) then st
              else add_new st in
            log filepath (Extracted r) st
        | Some e => except_ExifReadError w idx filepath e st
        end
    | ReadRaises e => except_ExifReadError w idx filepath e st
    end.

(** The loop; [false] is the early [return False] of a requested shutdown. *)
Fixpoint process_loop (M : MathLib) (w : World)
    (locations : list LocationRow) (force_reprocess skip_location_lookup : bool)
    (processed_files : gmap string (option float * option string))
    (idx : nat) (all_image_files : list string) (st : RunState)
  : bool * RunState :=
  match all_image_files with
  | [] => (true, st)
  | filepath :: rest =>
      if shutdown_requested w idx 0%nat then (false, st)
      else
        process_loop M w locations force_reprocess skip_location_lookup
          processed_files (S idx) rest
          (process_file M w locations force_reprocess skip_location_lookup
             processed_files idx filepath st)
  end.

(** [process_images], from the point where the tables exist and the directory
    walk has collected [all_image_files]; [db] is the content of [photos] and
    [locations] that of the gazetteer table. *)
Definition process_images (M : MathLib) (w : World)
    (locations : list LocationRow) (all_image_files : list string)
    (force_reprocess skip_location_lookup : bool)
    (db : gmap string PhotoRecord) : bool * RunState :=
  let processed_files :=
    if force_reprocess then ∅ else processed_files_of db in
  process_loop M w locations force_reprocess skip_location_lookup
    processed_files 1%nat all_image_files
    {| photos := db; image_count := 0; skipped_count := 0; error_count := 0;
       gps_count := 0; new_count := 0; updated_count := 0; trace := [] |}.

End Pipeline.

(** ** Reference definitions the claims are stated with *)

(** The conversion in exact rational arithmetic, as the specification words
    it: degrees + minutes/60 + seconds/3600, negated for South and West. *)
Definition ratio_Q (r : Ratio) : Q := Qdiv (inject_Z (num r)) (inject_Z (den r)).

Definition rational_decimal (dms : list Ratio) (ref : string) : option Q :=
  match dms with
  | d :: m :: s :: _ =>
      let dec := Qplus (Qplus (ratio_Q d) (Qdiv (ratio_Q m) (inject_Z 60)))
                       (Qdiv (ratio_Q s) (inject_Z 3600)) in
      Some (if ref_is_south_or_west ref then Qopp dec else dec)
  | _ => None
  end.

(** [dms_to_decimal] is exact at [dms], [ref]: the float it returns stands for
    the rational number [rational_decimal] gives. *)
Definition exact_at (dms : list Ratio) (ref : string) : Prop :=
  match dms_to_decimal dms ref, rational_decimal dms ref with
  | Returns v, Some q =>
      match value v with
      | Some q' => Qeq q' q
      | None => False
      end
  | _, _ => True
  end.


(** The distance of a candidate from the query point. *)
Definition distance_to (M : MathLib) (lat lon : float) (c : LocationRow)
  : outcome float :=
  haversine_distance M lat lon (latitude c) (longitude c).

(** An EXIF rational whose two parts fit a double exactly (they are 32-bit
    integers in the file format) and whose denominator is not zero. *)
Definition small_ratio (r : Ratio) : Prop :=
  Z.abs (num r) < 2 ^ 53 /\ Z.abs (den r) < 2 ^ 53 /\ den r <> 0.

(** The quotient [float(r.num) / float(r.den)]. *)
Definition quotient (r : Ratio) : float := fdiv (of_Z (num r)) (of_Z (den r)).

(** *** Places of the worked examples *)

Definition zero : float := S754_zero false.
Definition deg_0_1 : float := S754_finite false 7205759403792794 (-56).

Definition place_C : LocationRow := gazetteer_row 3 "C" deg_0_1 zero.

(** A gazetteer row at the origin whose name field is empty. *)
Definition nameless : LocationRow := {|
  geonameid := 5; name := Some EmptyString; asciiname := Some EmptyString;
  latitude := zero; longitude := zero;
  feature_class := Some "P"; feature_code := Some "PPL";
  country_code := Some "US"; admin1_code := Some "OH"; admin2_code := None
|}.

(** The North Pole, entered at longitude 100 and at longitude 0. *)
Definition pole_100 : LocationRow := gazetteer_row 6 "P" (of_Z 90) (of_Z 100).
Definition pole_0 : LocationRow := gazetteer_row 7 "P" (of_Z 90) zero.

(** *** The gazetteer claims *)

(** A line of the gazetteer file: the fields separated by tabs. *)
Fixpoint tsv_line (fields : list string) : string :=
  match fields with
  | [] => EmptyString
  | [f] => f
  | f :: rest => f +:+ String Gazetteer.tab EmptyString +:+ tsv_line rest
  end.

(** A well-formed row for Paris but for its empty latitude field. *)
Definition paris_without_latitude : string :=
  tsv_line ["2988507"; "Paris"; "Paris"; EmptyString; EmptyString; "2"; "P"; "PPLC";
     "FR"].

(** A row the import does not insert for want of a key or a coordinate: the
    id is missing or zero, or the latitude or longitude field is empty. *)
Definition lacks_key_or_coordinate (P : Gazetteer.Parsers) (fields : list string)
  : Prop :=
  Gazetteer.parse_id P fields = Returns None \/
  Gazetteer.parse_id P fields = Returns (Some 0) \/
  Gazetteer.field_nonempty fields 4 = None \/
  Gazetteer.field_nonempty fields 5 = None.

(** One of the three numeric fields fails to parse. *)
Definition parse_fails (P : Gazetteer.Parsers) (fields : list string) : Prop :=
  Gazetteer.parse_id P fields = Raises ValueError \/
  Gazetteer.parse_coordinate P fields 4 = Raises ValueError \/
  Gazetteer.parse_coordinate P fields 5 = Raises ValueError.

(** *** The pipeline claims *)

Import Pipeline.

(** [bool(m)] of an optional modification time. *)
Definition mtime_truthy (m : option float) : bool :=
  match m with
  | Some x => truthy x
  | None => false
  end.

(** The store accepts every row. *)
Definition store_accepts (w : World) : Prop :=
  forall idx r, insert_raises w idx r = None.

(** The row an extraction of [p] at loop index [idx] writes when the store
    accepts it. *)
Definition record_for (M : MathLib) (w : World) (locations : list LocationRow)
    (skip_location_lookup : bool) (idx : nat) (p : string) : PhotoRecord :=
  match read_file w p with
  | ReadTags tags =>
      fst (processed_record M locations skip_location_lookup
             (fun k => shutdown_requested w idx (S k)) p tags
             (calculate_file_hash w p) (get_file_mtime w p) (now w idx))
  | ReadRaises e =>
      if has_ExifReadError w then
        match e with
        | ExifReadError _ => exif_error_row w idx p e
        | _ => processing_error_row w idx p e
        end
      else processing_error_row w idx p no_ExifReadError
  end.

(** What the two handlers do with [p], by what the store does. *)
Definition handler_action (w : World) (idx : nat) (p : string) (e : exn)
  : Action :=
  match insert_raises w idx (processing_error_row w idx p e) with
  | None => Extracted (processing_error_row w idx p e)
  | Some _ => Dropped
  end.

Definition except_action (w : World) (idx : nat) (p : string) (e : exn)
  : Action :=
  if has_ExifReadError w then
    match e with
    | ExifReadError _ =>
        match insert_raises w idx (exif_error_row w idx p e) with
        | None => Extracted (exif_error_row w idx p e)
        | Some e' => handler_action w idx p e'
        end
    | _ => handler_action w idx p e
    end
  else handler_action w idx p no_ExifReadError.

(** What the loop body does with [p] at index [idx]; it depends on the world
    and on the dictionary [processed_files], not on the counters. *)
Definition file_action (M : MathLib) (w : World) (locations : list LocationRow)
    (force_reprocess skip_location_lookup : bool)
    (processed_files : gmap string (option float * option string))
    (idx : nat) (p : string) : Action :=
  if negb (path_exists w p) then Missing
  else if skip_file w force_reprocess processed_files p then Skipped
  else
    match read_file w p with
    | ReadTags tags =>
        let r := fst (processed_record M locations skip_location_lookup
                        (fun k => shutdown_requested w idx (S k)) p tags
                        (calculate_file_hash w p) (get_file_mtime w p)
                        (now w idx)) in
        match insert_raises w idx r with
        | None => Extracted r
        | Some e => except_action w idx p e
        end
    | ReadRaises e => except_action w idx p e
    end.

(** The state a handler leaves that took the action [a] on [p]. *)
Definition handled (p : string) (a : Action) (st : RunState) : RunState :=
  match a with
  | Extracted r => log p a (add_error (insert_or_replace p r st))
  | _ => log p a st
  end.

(** A row one of the handlers builds for [p] at index [idx]. *)
Definition handler_row (w : World) (idx : nat) (p : string) (r : PhotoRecord)
  : Prop :=
  exists msg,
    r = failed_record p (calculate_file_hash w p) (get_file_mtime w p)
          (now w idx) msg.

(** The trace of a loop that is not interrupted: the action on each file, the
    loop index counting up from [idx]. *)
Fixpoint actions (act : nat -> string -> Action) (idx : nat) (l : list string)
  : list (string * Action) :=
  match l with
  | [] => []
  | p :: rest => (p, act idx p) :: actions act (S idx) rest
  end.

(** The effect of one action, and of a trace, on the table [photos]. *)
Definition apply_action (db : gmap string PhotoRecord) (pa : string * Action)
  : gmap string PhotoRecord :=
  match snd pa with
  | Extracted r => <[fst pa := r]> db
  | _ => db
  end.

Definition replay (tr : list (string * Action)) (db : gmap string PhotoRecord)
  : gmap string PhotoRecord :=
  foldl apply_action db tr.

Definition is_skipped (a : Action) : bool :=
  match a with Skipped => true | _ => false end.

Definition count_skipped (tr : list (string * Action)) : nat :=
  length (filter (fun pa => is_skipped (snd pa) = true) tr).

(** The EXIF-derived columns of a row are all null. *)
Definition exif_null (r : PhotoRecord) : Prop :=
  datetime r = None /\ camera_model r = None /\ lens_model r = None /\
  iso r = None /\ fnumber r = None /\ exposure_time r = None /\
  focal_length r = None /\ orientation r = None /\
  gps_lat r = None /\ gps_lon r = None /\ location r = None.

(** The shape of a row the pipeline writes for the file [p]. *)
Definition well_formed (w : World) (p : string) (r : PhotoRecord) : Prop :=
  filepath r = p /\
  (status r = "processed" \/ status r = "failed") /\
  (status r = "processed" -> error_message r = None) /\
  (status r = "failed" ->
     exif_null r /\ is_Some (error_message r) /\
     file_hash r = calculate_file_hash w p /\
     file_mtime r = get_file_mtime w p /\
     exists idx, processed_at r = Some (now w idx)).

(** The resume dictionary of a run. *)
Definition resume_set (force_reprocess : bool) (db : gmap string PhotoRecord)
  : gmap string (option float * option string) :=
  if force_reprocess then ∅ else processed_files_of db.

(** *** Worlds of the worked examples *)

(** A file that exists but cannot be opened: [open] raises
    [PermissionError], so that the hash is [None]; the modification time can
    still be read. *)
Definition unreadable_file : FileInfo := {|
  mtime := Some (of_Z 1700000000);
  md5 := None;
  read := ReadRaises
            (OtherError "[Errno 13] Permission denied: '/photos/a.jpg'")
|}.

(** A readable file without tags. *)
Definition plain_file : FileInfo := {|
  mtime := Some (of_Z 1700000000);
  md5 := Some "e4d909c290d0fb1ca068ffaddf22cbd0";
  read := ReadTags ∅
|}.

(** A readable file whose modification time is 0.0 (the epoch). *)
Definition epoch_file : FileInfo := {|
  mtime := Some zero;
  md5 := Some "e4d909c290d0fb1ca068ffaddf22cbd0";
  read := ReadTags ∅
|}.

Definition one_file_world (p : string) (f : FileInfo) (clock : string) : World := {|
  files := {[ p := f ]};
  now := fun _ => clock;
  shutdown_requested := fun _ _ => false;
  has_ExifReadError := false;
  insert_raises := fun _ _ => None
|}.

Definition photo_path : string := "/photos/a.jpg".

(** The stored row of a file processed when its modification time read 0.0. *)
Definition epoch_record : PhotoRecord := {|
  filename := "a.jpg"; filepath := photo_path;
  datetime := None; camera_model := None; lens_model := None;
  iso := None; fnumber := None; exposure_time := None;
  focal_length := None; orientation := None;
  gps_lat := None; gps_lon := None; location := None;
  status := "processed";
  file_hash := Some "e4d909c290d0fb1ca068ffaddf22cbd0";
  file_mtime := Some zero;
  processed_at := Some "2024-01-01T00:00:00"; error_message := None
|}.

(** A file that was read and has a non-zero modification time. *)
Definition read_with_mtime (w : World) (p : string) : Prop :=
  exists f tags m,
    files w !! p = Some f /\ read f = ReadTags tags /\ mtime f = Some m /\
    truthy m = true /\ is_nan m = false.

(** Two clock readings. *)
Definition monday : string := "2024-01-01T00:00:00".
Definition tuesday : string := "2024-01-02T00:00:00".

(** The worlds of a directory with one unreadable file on these two days,
    the row the first day's run stores for it, and two successive runs over
    the directory that start from an empty store. *)
Definition unreadable_world (clock : string) : World :=
  one_file_world photo_path unreadable_file clock.



Definition unreadable_first_run : RunState :=
  snd (process_images sampled_math (unreadable_world monday) [] [photo_path]
         false false ∅).

Definition unreadable_second_run : RunState :=
  snd (process_images sampled_math (unreadable_world tuesday) [] [photo_path]
         false false (photos unreadable_first_run)).




(** *** Reading the trace of a run *)

(** The action stored a processed row; the action counts as an error (a
    vanished file or a failed row); the row stored has both coordinates. *)
Definition stores_processed (a : Action) : bool :=
  match a with
  | Extracted r => bool_decide (status r = "processed")
  | _ => false
  end.

Definition is_error_action (a : Action) : bool :=
  match a with
  | Missing => true
  | Extracted r => bool_decide (status r = "failed")
  | Skipped | Dropped => false
  end.

(** The loop body went past the skip test. *)
Definition is_attempted (a : Action) : bool :=
  match a with
  | Extracted _ | Dropped => true
  | _ => false
  end.

Definition stores_coordinates (a : Action) : bool :=
  match a with
  | Extracted r => bool_decide (is_Some (gps_lon r))
  | _ => false
  end.

Definition count_actions (f : Action -> bool) (tr : list (string * Action))
  : nat :=
  length (filter (fun pa => f (snd pa) = true) tr).

(** A world with one readable file per path of [paths], in which a shutdown
    is requested when the loop reaches index [stop]. *)
Definition interrupted_world (paths : list string) (stop : nat) : World := {|
  files := list_to_map ((fun p => (p, plain_file)) <$> paths);
  now := fun _ => monday;
  shutdown_requested := fun idx k => (idx =? stop)%nat && (k =? 0)%nat;
  has_ExifReadError := false;
  insert_raises := fun _ _ => None
|}.

(** *** Reading the result of an import *)

(** An integer sqlite can store. *)
Definition in_int64 (n : Z) : Prop := - 2 ^ 63 <= n < 2 ^ 63.


(** Complete rows for Paris and for Lyon, the latter under the id of Paris. *)
Definition paris_line : string :=
  tsv_line ["2988507"; "Paris"; "Paris"; EmptyString; "48"; "2"; "P"; "PPLC";
            "FR"].

Definition lyon_as_paris_line : string :=
  tsv_line ["2988507"; "Lyon"; "Lyon"; EmptyString; "45"; "4"; "P"; "PPLA";
            "FR"].

(** A second place 11 km north of the origin, at the coordinates of C. *)
Definition place_D : LocationRow := gazetteer_row 8 "D" deg_0_1 zero.

(** ** Further functions of [app.py] *)

(** *** Schema migration *)

Module Schema.

(** sqlite compares column names without regard to ASCII case. *)
Definition ascii_lower (c : ascii) : ascii :=
  let n := nat_of_ascii c in
  if ((65 <=? n) && (n <=? 90))%nat then ascii_of_nat (n + 32) else c.

Fixpoint name_lower (s : string) : string :=
  match s with
  | EmptyString => EmptyString
  | String c rest => String (ascii_lower c) (name_lower rest)
  end.

Definition same_column (a b : string) : bool :=
  bool_decide (name_lower a = name_lower b).

(** [ALTER TABLE photos ADD COLUMN c ...]: the column is appended; a column
    of that name makes the statement fail, and so does a table that does not
    exist (a table has a column, so that [PRAGMA table_info] gave no row). *)
Definition add_column (columns : list string) (c : string)
  : outcome (list string) :=
  match columns with
  | [] => Raises (OtherError "no such table: photos")
  | _ :: _ =>
      if existsb (same_column c) columns
      then Raises (OtherError ("duplicate column name: " +:+ c))
      else Returns (columns ++ [c])
  end.

(** [for migration in migrations: cursor.execute(migration)], each migration
    named by the column it adds; the columns reached and the exception that
    stopped the loop, if any. *)
Fixpoint execute_all (migrations : list string) (columns : list string)
  : list string * option exn :=
  match migrations with
  | [] => (columns, None)
  | c :: rest =>
      match add_column columns c with
      | Returns columns' => execute_all rest columns'
      | Raises e => (columns, Some e)
      end
  end.

(** The migrations [migrate_database] collects for a table with [columns]
    (the second column of [PRAGMA table_info(photos)]). *)
Definition pending_migrations (columns : list string) : list string :=
  let migrations := [] in
  let migrations :=
    if bool_decide ("status" ∈ columns) then migrations
    else migrations ++ ["status"] in
  let migrations :=
    if bool_decide ("file_hash" ∈ columns) then migrations
    else migrations ++ ["file_hash"] in
  let migrations :=
    if bool_decide ("file_mtime" ∈ columns) then migrations
    else migrations ++ ["file_mtime"] in
  let migrations :=
    if bool_decide ("processed_at" ∈ columns) then migrations
    else migrations ++ ["processed_at"] in
  let migrations :=
    if bool_decide ("error_message" ∈ columns) then migrations
    else migrations ++ ["error_message"] in
  migrations.

(** [migrate_database]: the columns of [photos] afterwards and the value
    returned ([False] also when a statement raised). *)
Definition migrate_database (columns : list string) : list string * bool :=
  let migrations := pending_migrations columns in
  match execute_all migrations columns with
  | (columns', None) => (columns', (0 <? length migrations)%nat)
  | (columns', Some _) => (columns', false)
  end.

(** The five columns later versions of the pipeline added. *)
Definition added_columns : list string :=
  ["status"; "file_hash"; "file_mtime"; "processed_at"; "error_message"].

(** No column of the table differs from an added column by case only. *)
Definition no_case_clash (columns : list string) : Prop :=
  forall c a, c ∈ columns -> a ∈ added_columns ->
              same_column a c = true -> c = a.

End Schema.

(** *** The database file name *)

Module Paths.

(** [s.split('/')], with [acc] the component read so far. *)
Fixpoint split_from (acc : string) (s : string) : list string :=
  match s with
  | EmptyString => [acc]
  | String c rest =>
      if bool_decide (c = "/"%char) then acc :: split_from EmptyString rest
      else split_from (acc +:+ String c EmptyString) rest
  end.

Definition split_sep (s : string) : list string := split_from EmptyString s.

(** ['/'.join(comps)] *)
Fixpoint join_sep (comps : list string) : string :=
  match comps with
  | [] => EmptyString
  | [c] => c
  | c :: rest => c +:+ "/" +:+ join_sep rest
  end.

(** The number of leading slashes [posixpath.normpath] keeps: none, one, or
    two when the path starts with exactly two. *)
Definition initial_slashes (path : string) : nat :=
  if negb (String.prefix "/" path) then 0
  else if String.prefix "//" path && negb (String.prefix "///" path) then 2
  else 1.

(** One round of the loop over the components. *)
Definition norm_step (initial : nat) (new_comps : list string) (comp : string)
  : list string :=
  if bool_decide (comp = EmptyString) || bool_decide (comp = ".") then new_comps
  else if negb (bool_decide (comp = ".."))
          || ((initial =? 0)%nat && bool_decide (new_comps = []))
          || (negb (bool_decide (new_comps = []))
              && bool_decide (last new_comps = Some ".."))
  then new_comps ++ [comp]
  else removelast new_comps.

Fixpoint slashes (k : nat) : string :=
  match k with
  | O => EmptyString
  | S k => String "/" (slashes k)
  end.

(** [os.path.normpath] (POSIX). *)
Definition normpath (path : string) : string :=
  match path with
  | EmptyString => "."
  | _ =>
      let initial := initial_slashes path in
      let comps := foldl (norm_step initial) [] (split_sep path) in
      let path := slashes initial +:+ join_sep comps in
      match path with
      | EmptyString => "."
      | _ => path
      end
  end.

Definition DB_FILE : string := "photo_metadata.db".

Definition get_db_filename_from_folder (image_dir : string)
    (default_db : option string) : string :=
  let normalized_path := normpath image_dir in
  let folder_name := Pipeline.basename normalized_path in
  match folder_name with
  | String _ _ => folder_name +:+ ".db"
  | EmptyString =>
      if str_truthy default_db then default EmptyString default_db else DB_FILE
  end.

(** A path component that names a directory: not empty, not [.] or [..],
    and without a slash. *)
Fixpoint slash_free (s : string) : bool :=
  match s with
  | EmptyString => true
  | String c rest => negb (bool_decide (c = "/"%char)) && slash_free rest
  end.

Definition plain_component (c : string) : Prop :=
  c <> EmptyString /\ c <> "." /\ c <> ".." /\ slash_free c = true.

(** What may stand before the last component of a path: nothing, or a
    string that ends with a slash. *)
Definition directory_prefix (p : string) : Prop :=
  p = EmptyString \/ exists q, p = q +:+ "/".

End Paths.

(** *** Further worked examples *)

(** Three files of one directory. *)
Definition three_photos : list string :=
  ["/photos/a.jpg"; "/photos/b.jpg"; "/photos/c.jpg"].

(** A path at which the example worlds hold no file. *)
Definition vanished_path : string := "/photos/gone.jpg".

(** The stored row of a file processed when its content was another: the
    modification time is the one [plain_file] has, the hash is not. *)
Definition stale_hash_record : PhotoRecord := {|
  filename := "a.jpg"; filepath := photo_path;
  datetime := None; camera_model := None; lens_model := None;
  iso := None; fnumber := None; exposure_time := None;
  focal_length := None; orientation := None;
  gps_lat := None; gps_lon := None; location := None;
  status := "processed";
  file_hash := Some "d41d8cd98f00b204e9800998ecf8427e";
  file_mtime := Some (of_Z 1700000000);
  processed_at := Some monday; error_message := None
|}.

(** A latitude tag, 39 deg 6' 11.16'', a longitude tag whose seconds have a
    zero denominator, and the tags of a photo that holds the two. *)
Definition latitude_tag : IfdTag := {|
  printable := "[39, 6, 279/25]";
  values := [ {| num := 39; den := 1 |}; {| num := 6; den := 1 |};
              {| num := 279; den := 25 |} ]
|}.

Definition broken_tag : IfdTag := {|
  printable := "[84, 30, 0/0]";
  values := [ {| num := 84; den := 1 |}; {| num := 30; den := 1 |};
              {| num := 0; den := 0 |} ]
|}.

Definition broken_longitude_tags : gmap string IfdTag :=
  <["GPS GPSLatitude" := latitude_tag]>
    (<["GPS GPSLongitude" := broken_tag]> ∅).



(** A photo taken where the equator meets the prime meridian: both tags
    read 0 deg 0' 0''. *)
Definition origin_tag : IfdTag := {|
  printable := "[0, 0, 0]";
  values := [ {| num := 0; den := 1 |}; {| num := 0; den := 1 |};
              {| num := 0; den := 1 |} ]
|}.

Definition origin_file : FileInfo := {|
  mtime := Some (of_Z 1700000000);
  md5 := Some "e4d909c290d0fb1ca068ffaddf22cbd0";
  read := ReadTags (<["GPS GPSLatitude" := origin_tag]>
                      (<["GPS GPSLongitude" := origin_tag]> ∅))
|}.

Definition origin_world : World :=
  one_file_world photo_path origin_file monday.



(** The run of three files that is interrupted at the third. *)
Definition interrupted_run : bool * RunState :=
  process_images sampled_math (interrupted_world three_photos 3) []
    three_photos false true ∅.

(** A reference tag that reads [s]. *)
Definition reference_tag (s : string) : IfdTag :=
  {| printable := s; values := [] |}.

(** The columns [CREATE TABLE photos] gives a new table, and those of a
    table created before the five later ones were introduced. *)
Definition photos_columns : list string :=
  ["id"; "filename"; "filepath"; "datetime"; "camera_model"; "lens_model";
   "iso"; "fnumber"; "exposure_time"; "focal_length"; "orientation";
   "gps_lat"; "gps_lon"; "location"; "status"; "file_hash"; "file_mtime";
   "processed_at"; "error_message"].

Definition legacy_columns : list string := take 14 photos_columns.

(** [no_case_clash], as a test. *)
Definition no_case_clashb (columns : list string) : bool :=
  forallb (fun c =>
    forallb (fun a => implb (Schema.same_column a c) (bool_decide (c = a)))
      Schema.added_columns) columns.

(** ** Proof automation *)

(** Case analysis on the comparisons inside [SFcompare]. *)
Ltac float_cases :=
  repeat match goal with
  | |- context [Z.compare ?x ?y] =>
      destruct (Z.compare_spec x y); subst
  | |- context [Pos.compare_cont Eq ?x ?y] =>
      change (Pos.compare_cont Eq x y) with (Pos.compare x y);
      destruct (Pos.compare_spec x y); subst
  end;
  simpl; intros; try done; try lia.

(** Case analysis on the steps of a computation that may raise. *)
Ltac bind_cases :=
  repeat match goal with
  | |- context [Py.bind ?m _] => destruct m; simpl; try done
  end.

(** * Theorems *)

(** * Facts about binary64 comparison *)

Section FloatOrder.

Implicit Types a b c : float.

Lemma fltb_not_nan_l a b : fltb a b = true -> is_nan a = false.
Proof. destruct a, b; simpl; try done. Qed.

Lemma fltb_not_nan_r a b : fltb a b = true -> is_nan b = false.
Proof. destruct a as [| | |], b; simpl; try done. Qed.

Lemma fleb_not_nan_l a b : fleb a b = true -> is_nan a = false.
Proof. destruct a, b; simpl; try done. Qed.

Lemma fleb_not_nan_r a b : fleb a b = true -> is_nan b = false.
Proof. destruct a as [| | |], b; simpl; try done. Qed.

Lemma fleb_refl a : is_nan a = false -> fleb a a = true.
Proof.
  destruct a as [s|s| |s m e]; try done; intros _.
  - by destruct s.
  - unfold fleb, SFleb; simpl.
    rewrite Z.compare_refl. change (Pos.compare_cont Eq m m) with (Pos.compare m m).
    rewrite Pos.compare_refl. by destruct s.
Qed.

End FloatOrder.

Section FloatOrderTrans.

Implicit Types a b c : float.

Lemma fltb_fleb_trans a b c :
  fltb a b = true -> fleb b c = true -> fleb a c = true.
Proof.
  unfold fltb, fleb, SFltb, SFleb.
  destruct a as [sa|sa| |sa ma ea], b as [sb|sb| |sb mb eb],
           c as [sc|sc| |sc mc ec]; simpl; try done;
    try destruct sa; try destruct sb; try destruct sc; simpl; try done;
    float_cases.
Qed.

Lemma fleb_fltb_trans a b c :
  fleb a b = true -> fltb b c = true -> fltb a c = true.
Proof.
  unfold fltb, fleb, SFltb, SFleb.
  destruct a as [sa|sa| |sa ma ea], b as [sb|sb| |sb mb eb],
           c as [sc|sc| |sc mc ec]; simpl; try done;
    try destruct sa; try destruct sb; try destruct sc; simpl; try done;
    float_cases.
Qed.

Lemma fleb_trans a b c :
  fleb a b = true -> fleb b c = true -> fleb a c = true.
Proof.
  unfold fleb, SFleb.
  destruct a as [sa|sa| |sa ma ea], b as [sb|sb| |sb mb eb],
           c as [sc|sc| |sc mc ec]; simpl; try done;
    try destruct sa; try destruct sb; try destruct sc; simpl; try done;
    float_cases.
Qed.

Lemma fltb_fleb a b : fltb a b = true -> fleb a b = true.
Proof.
  unfold fltb, fleb, SFltb, SFleb. by destruct (SFcompare a b) as [[]|].
Qed.

(** Two numbers are comparable: what is not below is at least. *)
Lemma fltb_false_fleb a b :
  is_nan a = false -> is_nan b = false -> fltb a b = false -> fleb b a = true.
Proof.
  unfold fltb, fleb, SFltb, SFleb.
  destruct a as [sa|sa| |sa ma ea], b as [sb|sb| |sb mb eb]; simpl; try done;
    try destruct sa; try destruct sb; simpl; try done; float_cases.
Qed.

Lemma fltb_trans a b c :
  fltb a b = true -> fltb b c = true -> fltb a c = true.
Proof.
  unfold fltb, SFltb.
  destruct a as [sa|sa| |sa ma ea], b as [sb|sb| |sb mb eb],
           c as [sc|sc| |sc mc ec]; simpl; try done;
    try destruct sa; try destruct sb; try destruct sc; simpl; try done;
    float_cases.
Qed.

Lemma fltb_asym a b : fltb a b = true -> fltb b a = false.
Proof.
  unfold fltb, SFltb.
  destruct a as [sa|sa| |sa ma ea], b as [sb|sb| |sb mb eb]; simpl; try done;
    try destruct sa; try destruct sb; simpl; try done; float_cases.
Qed.

Lemma fltb_irrefl a : fltb a a = false.
Proof.
  destruct (fltb a a) eqn:H; [|done]. by rewrite (fltb_asym a a H) in H.
Qed.

Lemma fneg_fixed a : fneg a = a -> is_nan a = true.
Proof. destruct a as [[]|[]| |[] m e]; simpl; congruence. Qed.

End FloatOrderTrans.

(** * [float(n)] of a small integer: no overflow, and zero only for 0 *)

Section OfZ.

Lemma digits2_pos_iter_xO p k :
  digits2_pos (Pos.iter xO p k) = (digits2_pos p + k)%positive.
Proof.
  induction k as [|k IH] using Pos.peano_ind.
  - simpl. lia.
  - rewrite Pos.iter_succ. simpl. rewrite IH. lia.
Qed.

Lemma digits2_pos_lower p : 2 ^ (Z.pos (digits2_pos p) - 1) <= Z.pos p.
Proof.
  induction p as [p IH|p IH|]; simpl digits2_pos.
  - rewrite Pos2Z.inj_succ.
    replace (Z.succ (Z.pos (digits2_pos p)) - 1)
      with (Z.succ (Z.pos (digits2_pos p) - 1)) by lia.
    rewrite Z.pow_succ_r by lia. lia.
  - rewrite Pos2Z.inj_succ.
    replace (Z.succ (Z.pos (digits2_pos p)) - 1)
      with (Z.succ (Z.pos (digits2_pos p) - 1)) by lia.
    rewrite Z.pow_succ_r by lia. lia.
  - simpl. lia.
Qed.

Lemma digits2_pos_small p : Z.pos p < 2 ^ 53 -> Z.pos (digits2_pos p) <= 53.
Proof.
  intros Hp.
  destruct (Z_le_gt_dec (Z.pos (digits2_pos p)) 53) as [|Hgt]; [done|].
  pose proof (digits2_pos_lower p) as Hl.
  assert (2 ^ 53 <= 2 ^ (Z.pos (digits2_pos p) - 1))
    by (apply Z.pow_le_mono_r; lia).
  lia.
Qed.

Lemma binary_round_aux_exact s m e :
  Z.pos (digits2_pos m) = 53 -> -1074 <= e <= 971 ->
  binary_round_aux prec emax s (Z.pos m) e loc_Exact = S754_finite s m e.
Proof.
  intros Hd He. unfold binary_round_aux, shr_fexp, fexp, emin, prec, emax.
  simpl Zdigits2. rewrite Hd.
  replace (Z.max (53 + e - 53) (3 - 1024 - 53) - e) with 0 by lia.
  simpl. rewrite Hd.
  replace (Z.max (53 + e - 53) (3 - 1024 - 53) - e) with 0 by lia.
  simpl. destruct (Z.leb_spec e (1024 - 53)); [done|lia].
Qed.

Lemma binary_round_small s p :
  Z.pos p < 2 ^ 53 ->
  exists m e, binary_round prec emax s p 0 = S754_finite s m e.
Proof.
  intros Hp. pose proof (digits2_pos_small p Hp) as Hd.
  unfold binary_round, fexp, emin, prec, emax.
  replace (Z.max (Z.pos (digits2_pos p) + 0 - 53) (3 - 1024 - 53))
    with (Z.pos (digits2_pos p) - 53) by lia.
  unfold shl_align.
  destruct (Z.pos (digits2_pos p) - 53 - 0) as [|k|k] eqn:Hk; try lia.
  - eexists _, _. apply binary_round_aux_exact; lia.
  - eexists _, _. apply binary_round_aux_exact; [|lia].
    rewrite digits2_pos_iter_xO. lia.
Qed.

(** [float(n)] returns for |n| < 2^53, and returns a zero only for 0. *)
Lemma float_of_int_small n :
  Z.abs n < 2 ^ 53 ->
  float_of_int n = Returns (of_Z n) /\
  (n <> 0 -> is_zero (of_Z n) = false).
Proof.
  intros Hn. unfold float_of_int, of_Z, binary_normalize.
  destruct n as [|p|p].
  - done.
  - destruct (binary_round_small false p) as (m & e & ->); [lia|done].
  - destruct (binary_round_small true p) as (m & e & ->); [lia|done].
Qed.

End OfZ.

(** * GPS conversion (C2) *)

Section GpsConversion.

Lemma ratio_to_float_small r :
  small_ratio r -> ratio_to_float r = Returns (quotient r).
Proof.
  intros (Hn & Hd & Hz). unfold ratio_to_float.
  destruct (float_of_int_small (num r) Hn) as [-> _].
  destruct (float_of_int_small (den r) Hd) as [-> Hnz].
  simpl. unfold truediv. by rewrite (Hnz Hz).
Qed.

Lemma ref_is_south_or_west_spec ref :
  ref_is_south_or_west ref = true <-> ref = "S" \/ ref = "W".
Proof.
  unfold ref_is_south_or_west.
  rewrite orb_true_iff, !bool_decide_eq_true. done.
Qed.

(** C2, as amended: on rationals with non-zero denominators
    [dms_to_decimal] returns degrees + minutes/60 + seconds/3600 evaluated in
    binary64 arithmetic (every quotient and sum rounded to nearest), negated
    exactly when [ref] is "S" or "W"; nothing is said about exactness. *)
Theorem dms_to_decimal_float_formula (d m s : Ratio) (rest : list Ratio)
    (ref : string) :
  small_ratio d -> small_ratio m -> small_ratio s ->
  let dec := fadd (fadd (quotient d) (fdiv (quotient m) (of_Z 60)))
                  (fdiv (quotient s) (of_Z 3600)) in
  (ref = "S" \/ ref = "W" ->
   dms_to_decimal (d :: m :: s :: rest) ref = Returns (fneg dec)) /\
  (ref <> "S" -> ref <> "W" ->
   dms_to_decimal (d :: m :: s :: rest) ref = Returns dec) /\
  (is_nan dec = false -> fneg dec <> dec).
Proof.
  intros Hd Hm Hs dec.
  assert (Hrun : dms_to_decimal (d :: m :: s :: rest) ref
                 = Returns (if ref_is_south_or_west ref then fneg dec else dec)).
  { unfold dms_to_decimal. simpl.
    rewrite (ratio_to_float_small d Hd). simpl.
    rewrite (ratio_to_float_small m Hm). simpl.
    rewrite (ratio_to_float_small s Hs). simpl.
    done. }
  split; [|split].
  - intros Href. apply ref_is_south_or_west_spec in Href.
    by rewrite Hrun, Href.
  - intros H1 H2. rewrite Hrun.
    destruct (ref_is_south_or_west ref) eqn:E; [|done].
    apply ref_is_south_or_west_spec in E. tauto.
  - intros Hnan Heq. apply fneg_fixed in Heq. congruence.
Qed.

(** The specification's own example, 39 deg 6' 11.16'' North. *)
Lemma dms_to_decimal_float_formula_witness :
  dms_to_decimal [ {| num := 39; den := 1 |}; {| num := 6; den := 1 |};
                   {| num := 279; den := 25 |} ] "N"
  = Returns (S754_finite false 5503272080907227 (-47)).
Proof.
  pose proof (dms_to_decimal_float_formula
                {| num := 39; den := 1 |} {| num := 6; den := 1 |}
                {| num := 279; den := 25 |} [] "N") as H.
  assert (H1 : small_ratio {| num := 39; den := 1 |})
    by (unfold small_ratio; simpl; lia).
  assert (H2 : small_ratio {| num := 6; den := 1 |})
    by (unfold small_ratio; simpl; lia).
  assert (H3 : small_ratio {| num := 279; den := 25 |})
    by (unfold small_ratio; simpl; lia).
  destruct (H H1 H2 H3) as (_ & Hpos & _).
  rewrite Hpos by done. vm_compute. reflexivity.
Defined.

(** C2 as stated fails: one arc minute, 0 deg 1' 0'', is 1/60 degree, which
    no binary64 float equals. *)
Lemma dms_to_decimal_not_exact :
  ~ exact_at [ {| num := 0; den := 1 |}; {| num := 1; den := 1 |};
               {| num := 0; den := 1 |} ] "N".
Proof. vm_compute. intros H. discriminate H. Qed.

End GpsConversion.

(** * Location resolver (C4, C5, C6) *)

Section Resolver.

Variable M : MathLib.
Variables lat lon : float.

Local Abbreviation dist := (distance_to M lat lon).

Lemma format_location_string_named n a c :
  str_truthy n = true -> exists s, format_location_string n a c = Some s.
Proof. intros Hn. unfold format_location_string. rewrite Hn. simpl. eauto. Qed.

(** Where the loop's result comes from: the accumulator it started with, or
    a candidate of the list. *)
Lemma scan_candidates_picks sd cands : forall k min nearest d p,
  scan_candidates M lat lon sd k cands min nearest = Returns (ScanDone d p) ->
  (d = min /\ p = nearest) \/
  (exists c, c ∈ cands /\ dist c = Returns d /\ p = Some (place_of c)).
Proof.
  induction cands as [|c rest IH]; intros k min nearest d p; simpl.
  - intros [= <- <-]. by left.
  - destruct (sd k); [done|].
    fold (dist c). destruct (dist c) as [dc|e] eqn:Hdc; simpl; [|done].
    destruct (fltb dc min).
    + destruct (fltb dc half_km).
      * intros [= <- <-]. right. exists c. split; [apply list_elem_of_here|done].
      * intros H. apply IH in H as [[-> ->]|(c' & Hin & Hd & Hp)].
        -- right. exists c. split; [apply list_elem_of_here|done].
        -- right. exists c'. split; [by apply list_elem_of_further|done].
    + intros H. apply IH in H as [[-> ->]|(c' & Hin & Hd & Hp)].
      * by left.
      * right. exists c'. split; [by apply list_elem_of_further|done].
Qed.

(** The loop finds a place within the radius when there is one. *)
Lemma scan_candidates_finds sd max cands : forall k min nearest,
  (forall k, sd k = false) ->
  (forall c, c ∈ cands -> exists d, dist c = Returns d) ->
  fleb half_km max = true ->
  fltb max inf = true ->
  is_nan min = false ->
  (nearest = None -> min = inf) ->
  (exists c d, c ∈ cands /\ dist c = Returns d /\ fleb d max = true)
    \/ fleb min max = true ->
  exists d p,
    scan_candidates M lat lon sd k cands min nearest
      = Returns (ScanDone d (Some p)) /\ fleb d max = true.
Proof.
  induction cands as [|c rest IH];
    intros k min nearest Hsd Hdist Hhalf Hmax Hnan Hnone Hex; simpl.
  - destruct Hex as [(c & d & Hin & _)|Hmin]; [by apply elem_of_nil in Hin|].
    destruct nearest as [p|]; [by eauto|].
    rewrite (Hnone eq_refl) in Hmin.
    pose proof (fleb_fltb_trans _ _ _ Hmin Hmax) as Hc. discriminate Hc.
  - rewrite Hsd. fold (dist c).
    destruct (Hdist c) as [dc Hdc]; [apply list_elem_of_here|]. rewrite Hdc. simpl.
    destruct (fltb dc min) eqn:Hlt.
    + destruct (fltb dc half_km) eqn:Hclose.
      * eexists _, _. split; [done|]. by eapply fltb_fleb_trans.
      * apply IH; try done.
        -- intros c' Hc'. apply Hdist. by apply list_elem_of_further.
        -- by eapply fltb_not_nan_l.
        -- destruct Hex as [(c' & d' & Hin & Hd' & Hle)|Hmin].
           ++ apply elem_of_cons in Hin as [->|Hin].
              ** right. congruence.
              ** left. eauto.
           ++ right. by eapply fltb_fleb_trans.
    + apply IH; try done.
      * intros c' Hc'. apply Hdist. by apply list_elem_of_further.
      * destruct Hex as [(c' & d' & Hin & Hd' & Hle)|Hmin]; [|by right].
        apply elem_of_cons in Hin as [->|Hin]; [|left; eauto].
        right. assert (d' = dc) as -> by congruence.
        eapply fleb_trans; [|exact Hle].
        apply fltb_false_fleb; try done. by eapply fleb_not_nan_l.
Qed.



(** A result of the loop is closer than 0.5 km, or no candidate is strictly
    closer than it. *)
Lemma scan_candidates_minimal sd cands : forall k min nearest d p,
  scan_candidates M lat lon sd k cands min nearest = Returns (ScanDone d p) ->
  fltb d half_km = true \/
  ((d = min \/ fltb d min = true) /\
   forall c d', c ∈ cands -> dist c = Returns d' -> fltb d' d = false).
Proof.
  induction cands as [|c rest IH]; intros k min nearest d p; simpl.
  - intros [= <- <-]. right. split; [by left|].
    intros c d' Hin. by apply elem_of_nil in Hin.
  - destruct (sd k); [done|]. fold (dist c).
    destruct (dist c) as [dc|e] eqn:Hdc; simpl; [|done].
    destruct (fltb dc min) eqn:Hlt.
    + destruct (fltb dc half_km) eqn:Hclose.
      * intros [= <- <-]. by left.
      * intros H. apply IH in H as [H|[Hd Hrest]]; [by left|]. right. split.
        -- right. destruct Hd as [->|Hd]; [done|]. by eapply fltb_trans.
        -- intros c' d' [->|Hin]%elem_of_cons Hd'; [|by eapply Hrest].
           assert (d' = dc) as -> by congruence.
           destruct Hd as [->|Hd]; [apply fltb_irrefl|by apply fltb_asym].
    + intros H. apply IH in H as [H|[Hd Hrest]]; [by left|]. right.
      split; [done|].
      intros c' d' [->|Hin]%elem_of_cons Hd'; [|by eapply Hrest].
      assert (d' = dc) as -> by congruence.
      destruct Hd as [->|Hd]; [done|].
      destruct (fltb dc d) eqn:Hc; [|done].
      by rewrite (fltb_trans _ _ _ Hc Hd) in Hlt.
Qed.

(** C4, as amended: [find_nearest_location] returns null when every
    candidate of the bounding box is beyond the radius (or there is none); and
    when some candidate's distance is at most the radius (a candidate at
    exactly the radius counts), it returns the formatted string of a
    candidate within the radius, one that is closer than 0.5 km or that no
    candidate is strictly closer than, provided no shutdown is requested,
    every distance is computed, the candidates have non-empty names and the
    radius is a number from 0.5 km up. *)
Theorem find_nearest_location_radius (rows : list LocationRow)
    (max : float) (sd : nat -> bool) (buffers : float * float) :
  box_buffers M lat max = Returns buffers ->
  let cands := box_candidates rows lat lon buffers in
  ((forall c d, c ∈ cands -> dist c = Returns d -> fleb d max = false) ->
   find_nearest_location M lat lon rows max sd = Returns None) /\
  ((forall k, sd k = false) ->
   (forall c, c ∈ cands -> exists d, dist c = Returns d) ->
   (forall c, c ∈ cands -> str_truthy (name c) = true) ->
   fleb half_km max = true ->
   fltb max inf = true ->
   (exists c d, c ∈ cands /\ dist c = Returns d /\ fleb d max = true) ->
   exists c d s,
     c ∈ cands /\ dist c = Returns d /\ fleb d max = true /\
     (fltb d half_km = true \/
      forall c' d', c' ∈ cands -> dist c' = Returns d' -> fltb d' d = false) /\
     format_location_string (name c) (admin1_code c) (country_code c) = Some s /\
     find_nearest_location M lat lon rows max sd = Returns (Some s)).
Proof.
  intros Hbox cands. unfold find_nearest_location, find_nearest_location_body.
  rewrite Hbox. simpl. fold cands. split.
  - intros Hfar. destruct (sd 0%nat); [done|].
    destruct cands as [|c0 rest] eqn:Hc; [done|].
    destruct (scan_candidates M lat lon sd 1 (c0 :: rest) inf None)
      as [[d [p|]|]|e] eqn:Hscan; simpl; try done.
    apply scan_candidates_picks in Hscan as [[_ [=]]|(c & Hin & Hd & [= ->])].
    unfold place_of. by rewrite (Hfar c d Hin Hd).
  - intros Hsd Hdist Hnamed Hhalf Hmax Hex. rewrite Hsd.
    destruct cands as [|c0 rest] eqn:Hc.
    { destruct Hex as (c & d & Hin & _). by apply elem_of_nil in Hin. }
    destruct (scan_candidates_finds sd max (c0 :: rest) 1%nat inf None)
      as (d & p & Hscan & Hle); try done; [by left|].
    rewrite Hscan. simpl.
    pose proof (scan_candidates_minimal _ _ _ _ _ _ _ Hscan) as Hmin.
    apply scan_candidates_picks in Hscan as [[_ [=]]|(c & Hin & Hd & [= ->])].
    destruct (format_location_string_named (name c) (admin1_code c)
                (country_code c)) as [s Hs]; [by apply Hnamed|].
    exists c, d, s. unfold place_of. rewrite Hle, Hs.
    repeat (split; [done|]). split; [|done].
    destruct Hmin as [Hclose|[_ Hnone]]; [by left|by right].
Qed.


(** C6, as amended: [find_nearest_location] never raises, at the poles or
    elsewhere; when the cosine of the latitude is computed as zero, the
    division raises inside the function's [try] and the function returns null
    whatever the gazetteer holds.  There is no degenerate-box case. *)
Theorem find_nearest_location_never_raises (rows : list LocationRow)
    (max : float) (sd : nat -> bool) :
  (exists v, find_nearest_location M lat lon rows max sd = Returns v) /\
  (forall c, math_cos M (math_radians lat) = Returns c -> is_zero c = true ->
             find_nearest_location M lat lon rows max sd = Returns None).
Proof.
  unfold find_nearest_location. split.
  - destruct (find_nearest_location_body M lat lon rows max sd); simpl; eauto.
  - intros c Hcos Hz. unfold find_nearest_location_body, box_buffers.
    destruct (sd 0%nat); [done|]. rewrite Hcos.
    by destruct c as [s| | |].
Qed.

End Resolver.

(** ** Worked examples of the resolver *)

Section ResolverExamples.

(** 50 / 111, the latitude buffer of the default radius. *)
Local Abbreviation buffer_50 := (S754_finite false 8114593923190083 (-54)).

Lemma origin_buffers :
  box_buffers sampled_math zero (of_Z 50) = Returns (buffer_50, buffer_50).
Proof. vm_compute. reflexivity. Qed.

Lemma find_nearest_location_radius_witness :
  exists c d s,
    c ∈ box_candidates [place_C] zero zero (buffer_50, buffer_50) /\
    distance_to sampled_math zero zero c = Returns d /\
    fleb d (of_Z 50) = true /\
    (fltb d half_km = true \/
     forall c' d',
       c' ∈ box_candidates [place_C] zero zero (buffer_50, buffer_50) ->
       distance_to sampled_math zero zero c' = Returns d' ->
       fltb d' d = false) /\
    format_location_string (name c) (admin1_code c) (country_code c) = Some s /\
    find_nearest_location sampled_math zero zero [place_C] (of_Z 50) never
    = Returns (Some s).
Proof.
  assert (Hc : box_candidates [place_C] zero zero (buffer_50, buffer_50)
               = [place_C]) by (vm_compute; reflexivity).
  apply (proj2 (find_nearest_location_radius sampled_math zero zero [place_C]
                  (of_Z 50) never (buffer_50, buffer_50) origin_buffers)).
  - intros k. reflexivity.
  - intros c Hin. rewrite Hc in Hin. apply list_elem_of_singleton in Hin as ->.
    exists (S754_finite false 6259717877524055 (-49)). vm_compute. reflexivity.
  - intros c Hin. rewrite Hc in Hin. apply list_elem_of_singleton in Hin as ->.
    reflexivity.
  - vm_compute. reflexivity.
  - vm_compute. reflexivity.
  - exists place_C, (S754_finite false 6259717877524055 (-49)). rewrite Hc.
    split; [apply list_elem_of_here|].
    split; vm_compute; reflexivity.
Defined.

(** C4 as stated fails: the only candidate is at distance 0 from the query
    point, well within 50 km, but its name is empty and the result is null. *)
Lemma nameless_place_gives_null :
  box_candidates [nameless] zero zero (buffer_50, buffer_50) = [nameless] /\
  distance_to sampled_math zero zero nameless = Returns zero /\
  fleb zero (of_Z 50) = true /\
  find_nearest_location sampled_math zero zero [nameless] (of_Z 50) never
  = Returns None.
Proof. repeat split; vm_compute; reflexivity. Qed.



Lemma find_nearest_location_never_raises_witness :
  math_cos zero_cos_math (math_radians (of_Z 90)) = Returns zero /\
  find_nearest_location zero_cos_math (of_Z 90) zero [pole_0] (of_Z 50) never
  = Returns None.
Proof.
  split; [vm_compute; reflexivity|].
  apply (proj2 (find_nearest_location_never_raises zero_cos_math (of_Z 90) zero
                  [pole_0] (of_Z 50) never) zero); vm_compute; reflexivity.
Defined.

(** C6 as stated fails.  With the cosine CPython computes at 90 degrees
    (6.1e-17, not 0) the longitude buffer is 7.4e15 degrees and a place entered
    at longitude 100 is found from longitude 0, which a box without horizontal
    buffer excludes; with a cosine of exactly 0 the function answers null
    although the place is inside the box without horizontal buffer. *)
Lemma pole_is_no_degenerate_box :
  box_buffers sampled_math (of_Z 90) (of_Z 50)
    = Returns (buffer_50, S754_finite false 7356414123060977 0) /\
  find_nearest_location sampled_math (of_Z 90) zero [pole_100] (of_Z 50) never
    = Returns (Some "P, OH, US") /\
  find_nearest_location_degenerate sampled_math (of_Z 90) zero [pole_100]
      (of_Z 50) never
    = Returns None /\
  find_nearest_location zero_cos_math (of_Z 90) zero [pole_0] (of_Z 50) never
    = Returns None /\
  find_nearest_location_degenerate zero_cos_math (of_Z 90) zero [pole_0]
      (of_Z 50) never
    = Returns (Some "P, OH, US").
Proof. repeat split; vm_compute; reflexivity. Qed.

End ResolverExamples.

(** * Gazetteer import (C9) *)

Section GazetteerImport.

Import Gazetteer.

Variable P : Parsers.

Lemma parse_id_raises fields e :
  parse_id P fields = Raises e -> e = ValueError.
Proof.
  unfold parse_id. destruct (field_nonempty fields 0); [|done].
  destruct (py_int P s); [done|]. by intros [= <-].
Qed.

Lemma parse_coordinate_raises fields i e :
  parse_coordinate P fields i = Raises e -> e = ValueError.
Proof.
  unfold parse_coordinate. destruct (field_nonempty fields i); [|done].
  destruct (py_float P s); [done|]. by intros [= <-].
Qed.

Lemma parse_coordinate_empty fields i :
  field_nonempty fields i = None -> parse_coordinate P fields i = Returns None.
Proof. unfold parse_coordinate. by intros ->. Qed.

(** A row without key or coordinate leaves the per-line [try] without an
    insert: normally, or by the [ValueError] of another field. *)
Lemma import_fields_incomplete fields st :
  lacks_key_or_coordinate P fields ->
  (import_fields P fields st = Returns st /\ ~ parse_fails P fields) \/
  (import_fields P fields st = Raises ValueError /\ parse_fails P fields).
Proof.
  unfold lacks_key_or_coordinate, parse_fails, import_fields.
  intros Hlack.
  destruct (parse_id P fields) as [id|e] eqn:Hid; simpl.
  2:{ apply parse_id_raises in Hid as Hv. subst e. right. eauto. }
  destruct (parse_coordinate P fields 4) as [la|e] eqn:Hlat; simpl.
  2:{ apply parse_coordinate_raises in Hlat as Hv. subst e. right. eauto. }
  destruct (parse_coordinate P fields 5) as [lo|e] eqn:Hlon; simpl.
  2:{ apply parse_coordinate_raises in Hlon as Hv. subst e. right. eauto. }
  left. split; [|by intros [|[|]]].
  destruct Hlack as [[= ->]|[[= ->]|[H|H]]]; try done.
  - by destruct la, lo.
  - rewrite (parse_coordinate_empty _ _ H) in Hlat. injection Hlat as <-.
    by destruct id.
  - rewrite (parse_coordinate_empty _ _ H) in Hlon. injection Hlon as <-.
    by destruct id, la.
Qed.

(** Such rows never leave the [for] loop: a file made of them is read to its
    end and changes nothing but the error count. *)
Lemma import_lines_incomplete sd lines : forall n st,
  (forall k, sd k = false) ->
  Forall (fun line =>
            let fields := split_tab (strip line) in
            (length fields < 9)%nat \/ lacks_key_or_coordinate P fields) lines ->
  exists st',
    import_lines P sd n lines st = (true, st') /\
    rows st' = rows st /\ imported_count st' = imported_count st /\
    (error_count st <= error_count st' <= error_count st + length lines)%nat.
Proof.
  induction lines as [|line rest IH]; intros n st Hsd Hall; simpl.
  - eexists. split; [done|]. simpl. repeat split; lia.
  - apply Forall_cons in Hall as [Hline Hrest]. rewrite Hsd.
    set (st1 := if (n `mod` 100000 =? 0)%N then commit st else st).
    assert (Hst1 : rows st1 = rows st /\ imported_count st1 = imported_count st
                   /\ error_count st1 = error_count st)
      by (unfold st1; by destruct (n `mod` 100000 =? 0)%N).
    destruct Hst1 as (Hr & Hi & He).
    assert (Hstep : import_line P line st1 = Returns st1 \/
                    import_line P line st1 = Returns (count_error st1)).
    { unfold import_line.
      destruct (Nat.ltb_spec (length (split_tab (strip line))) 9);
        [by right|].
      destruct Hline as [Hlt|Hlack]; [simpl in Hlt; lia|].
      destruct (import_fields_incomplete (split_tab (strip line)) st1 Hlack)
        as [[-> _]|[-> _]]; [by left|by right]. }
    destruct Hstep as [-> | ->].
    + destruct (IH (N.succ n) st1 Hsd Hrest) as (st' & -> & Hr' & Hi' & He').
      exists st'. split; [done|]. repeat split; lia || congruence.
    + destruct (IH (N.succ n) (count_error st1) Hsd Hrest)
        as (st' & -> & Hr' & Hi' & He').
      exists st'. split; [done|]. simpl in *. repeat split; lia || congruence.
Qed.

(** C9, as amended: a row with fewer than 9 tab-separated fields is skipped
    and counted in the error count; a row with at least 9 fields whose id is
    missing or zero, or whose latitude or longitude is empty, is skipped as
    well, and neither aborts the import; but the second kind is counted in the
    error count exactly when one of its numeric fields fails to parse. *)
Theorem import_line_incomplete_row (line : string) (st : ImportState) :
  let fields := split_tab (strip line) in
  ((length fields < 9)%nat ->
   import_line P line st = Returns (count_error st)) /\
  ((9 <= length fields)%nat -> lacks_key_or_coordinate P fields ->
   (~ parse_fails P fields -> import_line P line st = Returns st) /\
   (parse_fails P fields -> import_line P line st = Returns (count_error st))).
Proof.
  intros fields. unfold import_line. fold fields. split.
  - intros Hshort. by destruct (Nat.ltb_spec (length fields) 9); [|lia].
  - intros Hlong Hlack.
    destruct (Nat.ltb_spec (length fields) 9); [lia|].
    destruct (import_fields_incomplete fields st Hlack) as [[-> Hn]|[-> Hy]];
      split; done.
Qed.

End GazetteerImport.

Section GazetteerExamples.

Import Gazetteer.

Lemma import_line_incomplete_row_witness :
  import_line digits_only paris_without_latitude
    {| rows := []; committed := []; imported_count := 0; error_count := 0 |}
  = Returns {| rows := []; committed := []; imported_count := 0;
               error_count := 0 |}.
Proof.
  refine (proj1 (proj2 (import_line_incomplete_row digits_only
                          paris_without_latitude _) _ _) _).
  - vm_compute. lia.
  - right. right. left. vm_compute. reflexivity.
  - intros [H|[H|H]]; vm_compute in H; discriminate H.
Defined.

(** C9 as stated fails: the row has nine fields and an empty latitude; the
    import skips it and finishes, with an error count of 0. *)
Lemma missing_latitude_is_not_counted :
  split_tab (strip paris_without_latitude)
    = ["2988507"; "Paris"; "Paris"; EmptyString; EmptyString; "2"; "P"; "PPLC";
     "FR"] /\
  import_locations_to_db digits_only (fun _ => false) []
    (Some [paris_without_latitude])
  = (true, {| rows := []; committed := []; imported_count := 0;
              error_count := 0 |}).
Proof. split; vm_compute; reflexivity. Qed.

End GazetteerExamples.

(** * The processing loop *)

Section Loop.

Variable M : MathLib.
Variable w : World.
Variable locations : list LocationRow.
Variables force_reprocess skip_location_lookup : bool.
Variable processed_files : gmap string (option float * option string).

Local Abbreviation step :=
  (process_file M w locations force_reprocess skip_location_lookup
     processed_files).
Local Abbreviation loop :=
  (process_loop M w locations force_reprocess skip_location_lookup
     processed_files).
Local Abbreviation act :=
  (file_action M w locations force_reprocess skip_location_lookup
     processed_files).

(** The handlers, seen through the action they take. *)
Lemma handle_exception_handled idx p e st :
  handle_exception w idx p e st = handled p (handler_action w idx p e) st.
Proof.
  unfold handle_exception, handler_action.
  by destruct (insert_raises w idx _).
Qed.

Lemma except_ExifReadError_handled idx p e st :
  except_ExifReadError w idx p e st = handled p (except_action w idx p e) st.
Proof.
  unfold except_ExifReadError, except_action.
  destruct (has_ExifReadError w); [|apply handle_exception_handled].
  destruct e; try apply handle_exception_handled.
  destruct (insert_raises w idx _); [apply handle_exception_handled|done].
Qed.

(** A handler writes a failed row of its own making, or nothing. *)
Lemma handler_action_cases idx p e :
  handler_action w idx p e = Dropped \/
  exists r, handler_action w idx p e = Extracted r /\ handler_row w idx p r.
Proof.
  unfold handler_action. destruct (insert_raises w idx _); [by left|].
  right. eexists. split; [done|]. by eexists.
Qed.

Lemma except_action_cases idx p e :
  except_action w idx p e = Dropped \/
  exists r, except_action w idx p e = Extracted r /\ handler_row w idx p r.
Proof.
  unfold except_action.
  destruct (has_ExifReadError w); [|apply handler_action_cases].
  destruct e; try apply handler_action_cases.
  destruct (insert_raises w idx _); [apply handler_action_cases|].
  right. eexists. split; [done|]. by eexists.
Qed.

(** The loop body, seen through the action it takes. *)
Lemma process_file_action idx p st :
  photos (step idx p st) = apply_action (photos st) (p, act idx p) /\
  trace (step idx p st) = trace st ++ [(p, act idx p)] /\
  skipped_count (step idx p st)
  = (skipped_count st + if is_skipped (act idx p) then 1 else 0)%nat.
Proof.
  unfold process_file, file_action, apply_action.
  destruct (path_exists w p); simpl; [|repeat split; lia].
  destruct (skip_file w force_reprocess processed_files p); simpl;
    [repeat split; lia|].
  set (st0 := if negb force_reprocess && _ then add_updated st else st).
  assert (H0 : photos st0 = photos st /\ trace st0 = trace st /\
               skipped_count st0 = skipped_count st).
  { unfold st0. by destruct (negb force_reprocess && _). }
  destruct H0 as (Hp0 & Ht0 & Hs0).
  assert (Hex : forall e s,
    photos s = photos st -> trace s = trace st ->
    skipped_count s = skipped_count st ->
    photos (except_ExifReadError w idx p e s)
    = match except_action w idx p e with
      | Extracted r => <[p := r]> (photos st)
      | _ => photos st
      end /\
    trace (except_ExifReadError w idx p e s)
    = trace st ++ [(p, except_action w idx p e)] /\
    skipped_count (except_ExifReadError w idx p e s)
    = (skipped_count st
       + if is_skipped (except_action w idx p e) then 1 else 0)%nat).
  { intros e s Hp Ht Hs. rewrite except_ExifReadError_handled.
    destruct (except_action_cases idx p e) as [->|(r & -> & _)]; simpl;
      rewrite ?Hp, ?Ht, ?Hs; repeat split; lia. }
  destruct (read_file w p) as [tags|e]; [|by apply Hex].
  destruct (processed_record _ _ _ _ _ _ _ _ _) as [r counted]. simpl.
  set (st1 := if counted then add_gps st0 else st0).
  assert (H1 : photos st1 = photos st /\ trace st1 = trace st /\
               skipped_count st1 = skipped_count st).
  { unfold st1. by destruct counted. }
  destruct H1 as (Hp1 & Ht1 & Hs1).
  destruct (insert_raises w idx r) as [e|]; [by apply Hex|].
  destruct (bool_decide (is_Some (processed_files !! p))); simpl;
    rewrite Hp1, Ht1, Hs1; repeat split; lia.
Qed.

(** An uninterrupted loop visits every file: its trace, its store and its
    skipped count are those of the actions replayed in order. *)
Lemma process_loop_complete l : forall idx st,
  (forall i, shutdown_requested w i 0%nat = false) ->
  exists st',
    loop idx l st = (true, st') /\
    trace st' = trace st ++ actions act idx l /\
    photos st' = replay (actions act idx l) (photos st) /\
    skipped_count st' = (skipped_count st + count_skipped (actions act idx l))%nat.
Proof.
  induction l as [|p rest IH]; intros idx st Hsd; simpl.
  - exists st. rewrite app_nil_r. repeat split. unfold count_skipped. simpl. lia.
  - rewrite Hsd.
    destruct (IH (S idx) (step idx p st) Hsd) as (st' & -> & Ht & Hp & Hs).
    destruct (process_file_action idx p st) as (Hp1 & Ht1 & Hs1).
    exists st'. split; [done|].
    rewrite Ht, Ht1, Hp, Hp1, Hs, Hs1, <- app_assoc. simpl.
    repeat split. unfold count_skipped. simpl.
    rewrite filter_cons. simpl.
    destruct (is_skipped (act idx p)); simpl; lia.
Qed.

(** Whatever is invariant under the loop body holds when the loop ends,
    interrupted or not. *)
Lemma process_loop_invariant (I : RunState -> Prop) l : forall idx st,
  (forall idx p st, I st -> I (step idx p st)) ->
  I st -> I (snd (loop idx l st)).
Proof.
  induction l as [|p rest IH]; intros idx st Hstep Hst; simpl; [done|].
  destruct (shutdown_requested w idx 0%nat); [done|].
  apply IH; [done|]. by apply Hstep.
Qed.

Lemma actions_lookup l : forall idx i p,
  l !! i = Some p ->
  actions act idx l !! i = Some (p, act (idx + i)%nat p).
Proof.
  induction l as [|q rest IH]; intros idx i p; [done|].
  destruct i as [|i]; simpl.
  - intros [= ->]. by rewrite Nat.add_0_r.
  - intros H. rewrite (IH (S idx) i p H). do 3 f_equal. lia.
Qed.

Lemma actions_elem_of l : forall idx p a,
  (p, a) ∈ actions act idx l -> p ∈ l /\ exists i, a = act i p.
Proof.
  induction l as [|q rest IH]; intros idx p a; simpl.
  - intros H. by apply elem_of_nil in H.
  - intros [[= -> ->]|H]%elem_of_cons.
    + split; [apply list_elem_of_here|eauto].
    + apply IH in H as [Hin Ha]. split; [by apply list_elem_of_further|done].
Qed.

Lemma actions_fst l : forall idx, (actions act idx l).*1 = l.
Proof. induction l as [|q rest IH]; intros idx; simpl; [done|]. by rewrite IH. Qed.

End Loop.

(** * Replaying a trace on the store *)

Section Replay.

Implicit Types (db : gmap string PhotoRecord) (tr : list (string * Action)).

(** What holds of the row of [p] before the trace and of every row the trace
    writes for [p] holds of the row of [p] after it. *)
Lemma replay_lookup_invariant (Q : option PhotoRecord -> Prop) p tr : forall db,
  Q (db !! p) ->
  (forall r, (p, Extracted r) ∈ tr -> Q (Some r)) ->
  Q (replay tr db !! p).
Proof.
  induction tr as [|[q a] tr IH]; intros db Hdb Hw; simpl; [done|].
  apply IH.
  - unfold apply_action. simpl. destruct a as [| |r|]; try done.
    destruct (decide (q = p)) as [->|Hne].
    + rewrite lookup_insert_eq. apply Hw. apply list_elem_of_here.
    + by rewrite lookup_insert_ne.
  - intros r Hr. apply Hw. by apply list_elem_of_further.
Qed.

(** A path the trace writes to ends with a row the trace wrote. *)
Lemma replay_written (Q : PhotoRecord -> Prop) p tr : forall db,
  (forall r, (p, Extracted r) ∈ tr -> Q r) ->
  (exists r, (p, Extracted r) ∈ tr) ->
  exists r, replay tr db !! p = Some r /\ Q r.
Proof.
  induction tr as [|[q a] tr IH]; intros db Hw [r0 Hr0]; simpl.
  - by apply elem_of_nil in Hr0.
  - apply elem_of_cons in Hr0 as [[= <- <-]|Hin].
    + apply (replay_lookup_invariant (fun o => exists r, o = Some r /\ Q r)).
      * unfold apply_action. simpl. rewrite lookup_insert_eq.
        eexists. split; [done|]. apply Hw. apply list_elem_of_here.
      * intros r Hr. eexists. split; [done|]. apply Hw.
        by apply list_elem_of_further.
    + apply IH; [|by eauto].
      intros r Hr. apply Hw. by apply list_elem_of_further.
Qed.

(** A trace of skips leaves the store as it is. *)
Lemma replay_skips tr : forall db,
  Forall (fun pa => snd pa = Skipped) tr ->
  replay tr db = db /\ count_skipped tr = length tr.
Proof.
  induction tr as [|[q a] tr IH]; intros db Hall; simpl; [done|].
  apply Forall_cons in Hall as [Ha Hrest]. simpl in Ha. subst a.
  change (apply_action db (q, Skipped)) with db.
  destruct (IH db Hrest) as [-> Hc]. split; [done|].
  unfold count_skipped in *. rewrite filter_cons. simpl. by rewrite Hc.
Qed.

End Replay.

(** * The rows the pipeline writes *)

Section Records.

Variable M : MathLib.
Variable w : World.
Variable locations : list LocationRow.
Variable skip_location_lookup : bool.

Local Abbreviation rec_for := (record_for M w locations skip_location_lookup).

Lemma processed_record_shape sd p tags h m t :
  let r := fst (processed_record M locations skip_location_lookup sd p tags
                  h m t) in
  filepath r = p /\ status r = "processed" /\ error_message r = None /\
  file_mtime r = m /\ file_hash r = h /\ processed_at r = Some t.
Proof.
  unfold processed_record.
  by destruct (extract_gps _ _ _ _ _) as [[[la lo] loc] counted].
Qed.

Lemma record_for_read idx p tags :
  read_file w p = ReadTags tags ->
  filepath (rec_for idx p) = p /\ status (rec_for idx p) = "processed" /\
  error_message (rec_for idx p) = None /\
  file_mtime (rec_for idx p) = get_file_mtime w p.
Proof.
  unfold record_for. intros ->.
  destruct (processed_record_shape (fun k => shutdown_requested w idx (S k)) p
              tags (calculate_file_hash w p) (get_file_mtime w p) (now w idx))
    as (H1 & H2 & H3 & H4 & _).
  done.
Qed.

(** The shape of a row a handler builds. *)
Lemma handler_row_shape idx p r :
  handler_row w idx p r ->
  filepath r = p /\ status r = "failed" /\
  exif_null r /\ is_Some (error_message r) /\
  file_hash r = calculate_file_hash w p /\
  file_mtime r = get_file_mtime w p /\
  processed_at r = Some (now w idx).
Proof.
  intros [msg ->]. unfold exif_null. simpl. repeat split; eauto.
Qed.

Lemma handler_row_well_formed idx p r :
  handler_row w idx p r -> well_formed w p r.
Proof.
  intros H. destruct (handler_row_shape idx p r H)
    as (H1 & H2 & H3 & H4 & H5 & H6 & H7).
  unfold well_formed. rewrite H1, H2.
  split; [done|]. split; [by right|]. split; [intros [=]|]. intros _.
  repeat (split; [done|]). eauto.
Qed.

Lemma record_for_raises idx p e :
  read_file w p = ReadRaises e -> handler_row w idx p (rec_for idx p).
Proof.
  unfold record_for. intros ->.
  destruct (has_ExifReadError w); [|by eexists].
  destruct e; by eexists.
Qed.

Lemma record_for_failed idx p e :
  read_file w p = ReadRaises e ->
  filepath (rec_for idx p) = p /\ status (rec_for idx p) = "failed" /\
  exif_null (rec_for idx p) /\ is_Some (error_message (rec_for idx p)) /\
  file_hash (rec_for idx p) = calculate_file_hash w p /\
  file_mtime (rec_for idx p) = get_file_mtime w p /\
  processed_at (rec_for idx p) = Some (now w idx).
Proof. intros H. by apply handler_row_shape, (record_for_raises idx p e). Qed.

Lemma record_for_well_formed idx p : well_formed w p (rec_for idx p).
Proof.
  unfold well_formed.
  destruct (read_file w p) as [tags|e] eqn:Hread.
  - destruct (record_for_read idx p tags Hread) as (H1 & H2 & H3 & H4).
    rewrite H1, H2, H3.
    split; [done|]. split; [by left|]. split; [done|]. intros [=].
  - by apply (handler_row_well_formed idx), (record_for_raises idx p e).
Qed.

(** The time of the row an extraction writes is the time of the loop index. *)
Lemma record_for_processed_at idx p :
  processed_at (rec_for idx p) = Some (now w idx).
Proof.
  destruct (read_file w p) as [tags|e] eqn:Hread.
  - unfold record_for. rewrite Hread.
    by destruct (processed_record_shape
                   (fun k => shutdown_requested w idx (S k)) p tags
                   (calculate_file_hash w p) (get_file_mtime w p) (now w idx))
      as (_ & _ & _ & _ & _ & ->).
  - by destruct (record_for_failed idx p e Hread) as (_ & _ & _ & _ & _ & _ & ->).
Qed.

Lemma record_for_mtime idx p :
  file_mtime (rec_for idx p) = get_file_mtime w p.
Proof.
  destruct (read_file w p) as [tags|e] eqn:Hread.
  - by destruct (record_for_read idx p tags Hread) as (_ & _ & _ & ->).
  - by destruct (record_for_failed idx p e Hread) as (_ & _ & _ & _ & _ & -> & _).
Qed.

Variables (force_reprocess : bool)
  (processed_files : gmap string (option float * option string)).

Local Abbreviation act :=
  (file_action M w locations force_reprocess skip_location_lookup
     processed_files).

(** The row the loop body writes is the processed row of the tags it read,
    or a row of a handler. *)
Lemma file_action_written idx p r :
  act idx p = Extracted r ->
  path_exists w p = true /\
  skip_file w force_reprocess processed_files p = false /\
  ((exists tags, read_file w p = ReadTags tags /\ r = rec_for idx p) \/
   handler_row w idx p r).
Proof.
  unfold file_action.
  destruct (path_exists w p); [|done].
  destruct (skip_file w force_reprocess processed_files p); [done|]. simpl.
  intros H. split; [done|]. split; [done|].
  assert (Hex : forall e, except_action w idx p e = Extracted r ->
                          handler_row w idx p r).
  { intros e He.
    destruct (except_action_cases w idx p e) as [Hd|(r' & Hr' & Hrow)];
      congruence. }
  unfold record_for.
  destruct (read_file w p) as [tags|e]; [|right; by apply (Hex e)].
  destruct (insert_raises w idx _) as [e|]; [right; by apply (Hex e)|].
  left. exists tags. split; [done|]. by injection H.
Qed.

Lemma file_action_well_formed idx p r :
  act idx p = Extracted r -> well_formed w p r.
Proof.
  intros H.
  destruct (file_action_written idx p r H) as (_ & _ & [(tags & _ & ->)|Hrow]).
  - apply record_for_well_formed.
  - by apply (handler_row_well_formed idx).
Qed.

(** When the store accepts every row, a file that is due is extracted and
    the row of its extraction written. *)
Lemma file_action_accepted idx p :
  store_accepts w ->
  path_exists w p = true ->
  skip_file w force_reprocess processed_files p = false ->
  act idx p = Extracted (rec_for idx p).
Proof.
  intros Hacc Hex Hskip. unfold file_action, record_for, except_action,
    handler_action.
  rewrite Hex, Hskip. simpl.
  destruct (read_file w p) as [tags|e]; [by rewrite Hacc|].
  destruct (has_ExifReadError w); [|by rewrite Hacc].
  destruct e; by rewrite Hacc.
Qed.

(** A file that is due leaves the loop body extracted or dropped. *)
Lemma file_action_due idx p :
  path_exists w p = true ->
  skip_file w force_reprocess processed_files p = false ->
  is_attempted (act idx p) = true.
Proof.
  intros Hex Hskip. unfold file_action. rewrite Hex, Hskip. simpl.
  assert (H : forall e, is_attempted (except_action w idx p e) = true).
  { intros e. by destruct (except_action_cases w idx p e)
      as [->|(r & -> & _)]. }
  destruct (read_file w p) as [tags|e]; [|done].
  by destruct (insert_raises w idx _).
Qed.

End Records.

Section Resume.

Lemma processed_files_of_lookup (db : gmap string PhotoRecord) p :
  processed_files_of db !! p
  = db !! p ≫= (fun r => if bool_decide (status r = "processed")
                          then Some (file_mtime r, file_hash r) else None).
Proof. unfold processed_files_of. apply lookup_omap. Qed.


Lemma resume_set_processed (db : gmap string PhotoRecord) p r :
  db !! p = Some r -> status r = "processed" ->
  resume_set false db !! p = Some (file_mtime r, file_hash r).
Proof.
  intros Hp Hs. unfold resume_set.
  rewrite processed_files_of_lookup, Hp. simpl.
  by rewrite bool_decide_eq_true_2.
Qed.

Lemma unchanged_truthy c s :
  unchanged c s = true -> mtime_truthy c = true /\ mtime_truthy s = true.
Proof.
  unfold unchanged, mtime_truthy. destruct c, s; try done.
  intros H. apply andb_true_iff in H as [H _].
  by apply andb_true_iff in H.
Qed.

Lemma process_images_unfold M w locations files force skip db :
  process_images M w locations files force skip db
  = process_loop M w locations force skip (resume_set force db) 1%nat files
      {| photos := db; image_count := 0; skipped_count := 0; error_count := 0;
         gps_count := 0; new_count := 0; updated_count := 0; trace := [] |}.
Proof. reflexivity. Qed.

(** An uninterrupted run, in terms of its actions. *)
Lemma process_images_complete M w locations files force skip db :
  (forall i, shutdown_requested w i 0%nat = false) ->
  let tr := actions (file_action M w locations force skip (resume_set force db))
              1%nat files in
  exists st,
    process_images M w locations files force skip db = (true, st) /\
    trace st = tr /\ photos st = replay tr db /\
    skipped_count st = count_skipped tr.
Proof.
  intros Hsd tr. rewrite process_images_unfold.
  destruct (process_loop_complete M w locations force skip
              (resume_set force db) files 1%nat
              {| photos := db; image_count := 0; skipped_count := 0;
                 error_count := 0; gps_count := 0; new_count := 0;
                 updated_count := 0; trace := [] |} Hsd)
    as (st & Hrun & Ht & Hp & Hs).
  exists st. by repeat split.
Qed.

End Resume.

(** * The counters and the interrupted loop *)

Section LoopProperties.

Variable M : MathLib.
Variable w : World.
Variable locations : list LocationRow.
Variables force_reprocess skip_location_lookup : bool.
Variable processed_files : gmap string (option float * option string).

Local Abbreviation step :=
  (process_file M w locations force_reprocess skip_location_lookup
     processed_files).
Local Abbreviation loop :=
  (process_loop M w locations force_reprocess skip_location_lookup
     processed_files).
Local Abbreviation act :=
  (file_action M w locations force_reprocess skip_location_lookup
     processed_files).

(** The status of the row an extraction writes is decided by the read. *)
Lemma record_for_status idx p :
  status (record_for M w locations skip_location_lookup idx p)
  = match read_file w p with
    | ReadTags _ => "processed"
    | ReadRaises _ => "failed"
    end.
Proof.
  destruct (read_file w p) as [tags|e] eqn:Hread.
  - by destruct (record_for_read M w locations skip_location_lookup idx p tags
                   Hread) as (_ & -> & _).
  - by destruct (record_for_failed M w locations skip_location_lookup idx p e
                   Hread) as (_ & -> & _).
Qed.

(** The counters after the loop body, by the action taken. *)
Lemma process_file_counters idx p st :
  let a := act idx p in
  let known := bool_decide (is_Some (processed_files !! p)) in
  image_count (step idx p st)
  = (image_count st + if stores_processed a then 1 else 0)%nat /\
  error_count (step idx p st)
  = (error_count st + if is_error_action a then 1 else 0)%nat /\
  updated_count (step idx p st)
  = (updated_count st
     + if is_attempted a && negb force_reprocess && known then 1 else 0)%nat /\
  new_count (step idx p st)
  = (new_count st + if stores_processed a && negb known then 1 else 0)%nat /\
  (gps_count st <= gps_count (step idx p st)
   <= gps_count st + if is_attempted a then 1 else 0)%nat /\
  (store_accepts w ->
   gps_count (step idx p st)
   <= gps_count st + if stores_processed a then 1 else 0)%nat.
Proof.
  unfold process_file, file_action. simpl.
  destruct (path_exists w p); simpl;
    [|split; [lia|]; split; [lia|]; split; [lia|]; split; [lia|];
      split; [lia|]; intros _; lia].
  destruct (skip_file w force_reprocess processed_files p); simpl;
    [split; [lia|]; split; [lia|]; split; [lia|]; split; [lia|];
     split; [lia|]; intros _; lia|].
  set (known := bool_decide (is_Some (processed_files !! p))).
  set (st0 := if negb force_reprocess && known then add_updated st else st).
  assert (H0 : image_count st0 = image_count st /\
               error_count st0 = error_count st /\
               gps_count st0 = gps_count st /\
               new_count st0 = new_count st /\
               updated_count st0
               = (updated_count st
                  + if negb force_reprocess && known then 1 else 0)%nat).
  { unfold st0. destruct (negb force_reprocess && known); simpl;
      repeat split; lia. }
  destruct H0 as (Hi0 & He0 & Hg0 & Hn0 & Hu0).
  assert (Hex : forall e s,
    let a := except_action w idx p e in
    image_count (except_ExifReadError w idx p e s) = image_count s /\
    error_count (except_ExifReadError w idx p e s)
    = (error_count s + if is_error_action a then 1 else 0)%nat /\
    updated_count (except_ExifReadError w idx p e s) = updated_count s /\
    new_count (except_ExifReadError w idx p e s) = new_count s /\
    gps_count (except_ExifReadError w idx p e s) = gps_count s /\
    stores_processed a = false /\ is_attempted a = true).
  { intros e s a. unfold a. rewrite except_ExifReadError_handled.
    destruct (except_action_cases w idx p e) as [->|(r & -> & Hrow)]; simpl.
    - repeat split; lia.
    - destruct (handler_row_shape w idx p r Hrow) as (_ & -> & _). simpl.
      repeat split; lia. }
  destruct (read_file w p) as [tags|e].
  - pose proof (processed_record_shape M locations skip_location_lookup
                  (fun k => shutdown_requested w idx (S k)) p tags
                  (calculate_file_hash w p) (get_file_mtime w p) (now w idx))
      as Hshape. simpl in Hshape.
    destruct (processed_record _ _ _ _ _ _ _ _ _) as [r counted].
    simpl in Hshape. destruct Hshape as (_ & Hst & _). simpl.
    set (st1 := if counted then add_gps st0 else st0).
    assert (H1 : image_count st1 = image_count st0 /\
                 error_count st1 = error_count st0 /\
                 new_count st1 = new_count st0 /\
                 updated_count st1 = updated_count st0 /\
                 (gps_count st0 <= gps_count st1 <= S (gps_count st0))%nat).
    { unfold st1. destruct counted; simpl; repeat split; lia. }
    destruct H1 as (Hi1 & He1 & Hn1 & Hu1 & Hg1).
    destruct (insert_raises w idx r) as [e|] eqn:Hins.
    + destruct (Hex e st1) as (Hi & He & Hu & Hn & Hg & Hsp & Hat).
      rewrite Hi, He, Hu, Hn, Hg, Hsp, Hat. simpl.
      split; [lia|]. split; [lia|].
      split; [destruct (negb force_reprocess && known); lia|].
      split; [lia|]. split; [lia|].
      intros Hacc. by rewrite Hacc in Hins.
    + unfold stores_processed, is_error_action. rewrite Hst. simpl.
      destruct known; simpl;
        (split; [lia|]; split; [lia|];
         split; [destruct (negb force_reprocess); simpl in *; lia|];
         split; [lia|]; split; [lia|]; intros _; lia).
  - destruct (Hex e st0) as (Hi & He & Hu & Hn & Hg & Hsp & Hat).
    rewrite Hi, He, Hu, Hn, Hg, Hsp, Hat. simpl.
    split; [lia|]. split; [lia|].
    split; [destruct (negb force_reprocess && known); lia|].
    split; [lia|]. split; [lia|]. intros _; lia.
Qed.

(** A loop, interrupted or not, has handled a prefix of its list. *)
Lemma process_loop_prefix l : forall idx st fin st',
  loop idx l st = (fin, st') ->
  exists j,
    (j <= length l)%nat /\
    trace st' = trace st ++ actions act idx (take j l) /\
    photos st' = replay (actions act idx (take j l)) (photos st) /\
    (fin = true -> j = length l) /\
    (fin = false -> shutdown_requested w (idx + j) 0%nat = true).
Proof.
  induction l as [|p rest IH]; intros idx st fin st'; simpl.
  - intros [= <- <-]. exists 0%nat. rewrite app_nil_r. by repeat split.
  - destruct (shutdown_requested w idx 0%nat) eqn:Hsd.
    + intros [= <- <-]. exists 0%nat. simpl. rewrite app_nil_r, Nat.add_0_r.
      split; [lia|]. repeat (split; [done|]). done.
    + intros H. apply IH in H as (j & Hj & Ht & Hp & Hfin & Hstop).
      destruct (process_file_action M w locations force_reprocess
                  skip_location_lookup processed_files idx p st)
        as (Hp1 & Ht1 & _).
      exists (S j). simpl. rewrite Ht, Ht1, Hp, Hp1, <- app_assoc. simpl.
      split; [lia|]. split; [done|]. split; [done|]. split.
      * intros Hf. by rewrite (Hfin Hf).
      * intros Hf. rewrite <- (Hstop Hf). f_equal. lia.
Qed.

(** An invariant of the body on the files of the list holds after the loop. *)
Lemma process_loop_invariant_in (I : RunState -> Prop) l : forall idx st,
  (forall idx p st, p ∈ l -> I st -> I (step idx p st)) ->
  I st -> I (snd (loop idx l st)).
Proof.
  induction l as [|p rest IH]; intros idx st Hstep Hst; simpl; [done|].
  destruct (shutdown_requested w idx 0%nat); [done|].
  apply IH.
  - intros i q s Hq. apply Hstep. by apply list_elem_of_further.
  - apply Hstep; [apply list_elem_of_here|done].
Qed.

(** A loop interrupted at its [j]-th file ends in the state a loop over the
    first [j] files ends in. *)
Lemma process_loop_interrupted l : forall idx st j,
  (j < length l)%nat ->
  (forall i, (i < j)%nat -> shutdown_requested w (idx + i) 0%nat = false) ->
  shutdown_requested w (idx + j) 0%nat = true ->
  exists st',
    loop idx l st = (false, st') /\ loop idx (take j l) st = (true, st').
Proof.
  induction l as [|p rest IH]; intros idx st j Hj Hbefore Hat; simpl in *;
    [lia|].
  destruct j as [|j]; simpl.
  - rewrite Nat.add_0_r in Hat. rewrite Hat. eauto.
  - pose proof (Hbefore 0%nat ltac:(lia)) as H0.
    rewrite Nat.add_0_r in H0. rewrite H0.
    apply IH; [lia| |].
    + intros i Hi. rewrite <- (Hbefore (S i)) by lia. f_equal. lia.
    + rewrite <- Hat. f_equal. lia.
Qed.

End LoopProperties.

(** * Counting the files of a run *)

Section RunCounters.

Variable M : MathLib.
Variable w : World.
Variable locations : list LocationRow.
Variable all_image_files : list string.

Lemma count_actions_snoc f tr pa :
  count_actions f (tr ++ [pa])
  = (count_actions f tr + if f (snd pa) then 1 else 0)%nat.
Proof.
  unfold count_actions. rewrite filter_app, length_app, filter_cons. simpl.
  destruct (f (snd pa)); simpl; lia.
Qed.

Lemma count_skipped_snoc tr pa :
  count_skipped (tr ++ [pa])
  = (count_skipped tr + if is_skipped (snd pa) then 1 else 0)%nat.
Proof. apply (count_actions_snoc is_skipped). Qed.

Lemma actions_length (act : nat -> string -> Action) l : forall idx,
  length (actions act idx l) = length l.
Proof. induction l as [|q rest IH]; intros idx; simpl; [done|]. by rewrite IH. Qed.

(** The counters count the actions of the trace. *)
Lemma run_counters (force skip : bool) (db : gmap string PhotoRecord) :
  let st := snd (process_images M w locations all_image_files force skip db) in
  image_count st = count_actions stores_processed (trace st)
  /\ skipped_count st = count_actions is_skipped (trace st)
  /\ error_count st = count_actions is_error_action (trace st)
  /\ (new_count st + updated_count st
      <= count_actions is_attempted (trace st))%nat
  /\ (gps_count st <= count_actions is_attempted (trace st))%nat
  /\ (store_accepts w -> gps_count st <= image_count st)%nat.
Proof.
  intros st. unfold st. rewrite process_images_unfold.
  apply (process_loop_invariant M w locations force skip (resume_set force db)
    (fun st =>
       image_count st = count_actions stores_processed (trace st)
       /\ skipped_count st = count_actions is_skipped (trace st)
       /\ error_count st = count_actions is_error_action (trace st)
       /\ (new_count st + updated_count st
           <= count_actions is_attempted (trace st))%nat
       /\ (gps_count st <= count_actions is_attempted (trace st))%nat
       /\ (store_accepts w -> gps_count st <= image_count st)%nat)).
  - intros idx p s (H1 & H2 & H3 & H4 & H5 & H6).
    destruct (process_file_action M w locations force skip
                (resume_set force db) idx p s) as (_ & Ht & Hs).
    destruct (process_file_counters M w locations force skip
                (resume_set force db) idx p s) as (Hi & He & Hu & Hn & Hg & Hga).
    rewrite Ht, Hs, Hi, He, Hu, Hn, !count_actions_snoc. simpl.
    set (a := file_action M w locations force skip (resume_set force db) idx p)
      in *.
    assert (Hsp : stores_processed a = true -> is_attempted a = true)
      by by destruct a.
    split; [lia|]. split; [lia|]. split; [lia|].
    split.
    { destruct (stores_processed a) eqn:Ha; simpl.
      - rewrite (Hsp eq_refl). simpl.
        destruct (negb force), (bool_decide _); simpl; lia.
      - destruct (is_attempted a), (negb force), (bool_decide _); simpl; lia. }
    split; [lia|]. intros Hacc. specialize (H6 Hacc). specialize (Hga Hacc). lia.
  - simpl. unfold count_actions. simpl. repeat split; lia.
Qed.

(** An element that [f] holds of is counted, one that it does not hold of
    is not. *)
Lemma count_actions_pos f tr p a :
  (p, a) ∈ tr -> f a = true -> (1 <= count_actions f tr)%nat.
Proof.
  unfold count_actions. intros Hin Hf.
  assert (H : (p, a) ∈ filter (fun pa => f (snd pa) = true) tr)
    by by apply list_elem_of_filter.
  destruct (filter _ tr); [by apply elem_of_nil in H|simpl; lia].
Qed.

Lemma count_actions_le f tr : (count_actions f tr <= length tr)%nat.
Proof. unfold count_actions. apply length_filter. Qed.

Lemma count_actions_lt f tr p a :
  (p, a) ∈ tr -> f a = false -> (count_actions f tr < length tr)%nat.
Proof.
  induction tr as [|[q b] tr IH]; intros Hin Hf.
  - by apply elem_of_nil in Hin.
  - unfold count_actions in *. rewrite filter_cons. simpl.
    apply elem_of_cons in Hin as [[= <- <-]|Hin].
    + rewrite decide_False by by rewrite Hf.
      pose proof (length_filter (fun pa => f (snd pa) = true) tr). lia.
    + specialize (IH Hin Hf). destruct (decide (f b = true)); simpl; lia.
Qed.

(** The three counters partition the files reached when nothing is
    dropped. *)
Lemma count_actions_partition tr :
  (forall p, (p, Dropped) ∉ tr) ->
  (forall p r, (p, Extracted r) ∈ tr ->
               status r = "processed" \/ status r = "failed") ->
  (count_actions stores_processed tr + count_actions is_skipped tr
   + count_actions is_error_action tr)%nat = length tr.
Proof.
  induction tr as [|[q a] tr IH]; intros Hd Hst; [done|].
  unfold count_actions in *. rewrite !filter_cons. simpl.
  assert (IH' := IH (fun p H => Hd p (list_elem_of_further _ _ _ H))
                    (fun p r H => Hst p r (list_elem_of_further _ _ _ H))).
  destruct a as [| |r|]; simpl.
  - lia.
  - lia.
  - destruct (Hst q r (list_elem_of_here _ _)) as [Hs|Hs]; rewrite Hs; simpl; lia.
  - exfalso. apply (Hd q), list_elem_of_here.
Qed.

End RunCounters.

(** * Change detection and failure handling (C1, C3, C7, C10) *)

Section Runs.

Variable M : MathLib.
Variable w : World.
Variable locations : list LocationRow.
Variable all_image_files : list string.
Variables force_reprocess skip_location_lookup : bool.
Variable db : gmap string PhotoRecord.

Local Abbreviation run :=
  (process_images M w locations all_image_files force_reprocess
     skip_location_lookup db).
Local Abbreviation act :=
  (file_action M w locations force_reprocess skip_location_lookup
     (resume_set force_reprocess db)).

Lemma actions_elem_of_lookup (f : nat -> string -> Action) l : forall idx p a,
  (p, a) ∈ actions f idx l ->
  exists i, l !! i = Some p /\ a = f (idx + i)%nat p.
Proof.
  induction l as [|q rest IH]; intros idx p a; simpl.
  - intros H. by apply elem_of_nil in H.
  - intros [[= -> ->]|H]%elem_of_cons.
    + exists 0%nat. by rewrite Nat.add_0_r.
    + apply IH in H as (i & Hi & ->). exists (S i). split; [done|].
      f_equal. lia.
Qed.

(** A file that exists and is not skipped is not counted as skipped, and
    counts as updated when it had a processed row and the run is not
    forced. *)
Lemma due_file_is_attempted p :
  (forall i, shutdown_requested w i 0%nat = false) ->
  p ∈ all_image_files ->
  path_exists w p = true ->
  skip_file w force_reprocess (resume_set force_reprocess db) p = false ->
  exists st,
    run = (true, st) /\
    (skipped_count st < length all_image_files)%nat /\
    (force_reprocess = false ->
     is_Some (resume_set force_reprocess db !! p) ->
     1 <= updated_count st)%nat.
Proof.
  intros Hsd Hin Hex Hskip.
  destruct (process_images_complete M w locations all_image_files
              force_reprocess skip_location_lookup db Hsd)
    as (st & Hrun & Ht & _ & Hs).
  exists st. split; [done|].
  apply list_elem_of_lookup in Hin as [i Hi].
  assert (Hentry : (p, act (1 + i)%nat p) ∈ trace st).
  { rewrite Ht. apply (list_elem_of_lookup_2 _ i).
    by rewrite (actions_lookup _ _ _ _ _ _ _ _ _ _ Hi). }
  pose proof (file_action_due M w locations skip_location_lookup
                force_reprocess (resume_set force_reprocess db) (1 + i) p
                Hex Hskip) as Hat.
  split.
  - rewrite Hs. rewrite <- (actions_length act all_image_files 1%nat), <- Ht.
    rewrite <- Ht in Hs.
    apply (count_actions_lt is_skipped (trace st) p (act (1 + i)%nat p));
      [done|].
    by destruct (act (1 + i)%nat p).
  - intros Hforce Hknown.
    assert (Hinv : (p, act (1 + i)%nat p) ∈ trace (snd run) ->
                   (1 <= updated_count (snd run))%nat).
    { rewrite process_images_unfold.
      apply (process_loop_invariant M w locations force_reprocess
               skip_location_lookup (resume_set force_reprocess db)
               (fun st => (p, act (1 + i)%nat p) ∈ trace st ->
                          (1 <= updated_count st)%nat)).
      - intros idx q s IHs.
        destruct (process_file_action M w locations force_reprocess
                    skip_location_lookup (resume_set force_reprocess db)
                    idx q s) as (_ & Ht1 & _).
        destruct (process_file_counters M w locations force_reprocess
                    skip_location_lookup (resume_set force_reprocess db)
                    idx q s) as (_ & _ & Hu & _).
        rewrite Ht1, Hu.
        intros [Hold|Hnew%list_elem_of_singleton]%elem_of_app.
        + specialize (IHs Hold). lia.
        + injection Hnew as <- _.
          rewrite (file_action_due M w locations skip_location_lookup
                     force_reprocess (resume_set force_reprocess db) idx p
                     Hex Hskip).
          rewrite bool_decide_eq_true_2 by done. rewrite Hforce. simpl. lia.
      - simpl. intros H. by apply elem_of_nil in H. }
    rewrite Hrun in Hinv. by apply Hinv.
Qed.

(** When the store accepts every row, a file that exists and is not skipped
    ends the run with the row of its extraction, and is counted as processed
    or as an error. *)
Lemma due_file_is_recorded p :
  (forall i, shutdown_requested w i 0%nat = false) ->
  store_accepts w ->
  p ∈ all_image_files ->
  path_exists w p = true ->
  skip_file w force_reprocess (resume_set force_reprocess db) p = false ->
  exists st j,
    run = (true, st) /\
    all_image_files !! j = Some p /\
    photos st !! p
    = Some (record_for M w locations skip_location_lookup (1 + j) p) /\
    (1 <= image_count st + error_count st)%nat.
Proof.
  intros Hsd Hacc Hin Hex Hskip.
  destruct (process_images_complete M w locations all_image_files
              force_reprocess skip_location_lookup db Hsd)
    as (st & Hrun & Ht & Hp & _).
  assert (Hact : forall i, act i p
                 = Extracted (record_for M w locations skip_location_lookup
                                i p)).
  { intros i. by apply file_action_accepted. }
  apply list_elem_of_lookup in Hin as [i Hi].
  assert (Hentry : (p, act (1 + i)%nat p) ∈ trace st).
  { rewrite Ht. apply (list_elem_of_lookup_2 _ i).
    by rewrite (actions_lookup _ _ _ _ _ _ _ _ _ _ Hi). }
  destruct (replay_written
              (fun r => exists j, all_image_files !! j = Some p /\
                 r = record_for M w locations skip_location_lookup (1 + j) p)
              p (actions act 1%nat all_image_files) db)
    as (r & Hr & j & Hj & ->).
  - intros r Hr. apply actions_elem_of_lookup in Hr as (j & Hj & Ha).
    rewrite Hact in Ha. injection Ha as ->. eauto.
  - exists (record_for M w locations skip_location_lookup (1 + i) p).
    rewrite <- Ht, <- Hact. exact Hentry.
  - exists st, j. split; [done|]. split; [done|]. split; [by rewrite Hp|].
    destruct (run_counters M w locations all_image_files force_reprocess
                skip_location_lookup db) as (Hic & _ & Hec & _).
    rewrite Hrun in Hic, Hec. simpl in Hic, Hec. rewrite Hic, Hec.
    rewrite Hact in Hentry.
    pose proof (record_for_status M w locations skip_location_lookup
                  (1 + i) p) as Hst.
    destruct (read_file w p).
    + assert (1 <= count_actions stores_processed (trace st))%nat; [|lia].
      apply (count_actions_pos _ _ _ _ Hentry).
      by apply bool_decide_eq_true_2.
    + assert (1 <= count_actions is_error_action (trace st))%nat; [|lia].
      apply (count_actions_pos _ _ _ _ Hentry).
      by apply bool_decide_eq_true_2.
Qed.


(** C10: a file with a processed record is skipped only if the stored and
    the current modification time are both present and non-zero; when either
    is 0.0 or missing, every run that is not interrupted extracts the file
    again: it is not counted as skipped, it counts as updated when the run
    is not forced, and when the store accepts the rows its row is replaced by
    the row of the new extraction, which stores the current modification
    time again. *)
Theorem falsy_mtime_is_extracted_again (p : string) (r : PhotoRecord) :
  (forall i, shutdown_requested w i 0%nat = false) ->
  db !! p = Some r -> status r = "processed" ->
  p ∈ all_image_files ->
  path_exists w p = true ->
  mtime_truthy (file_mtime r) = false \/
  mtime_truthy (get_file_mtime w p) = false ->
  exists st,
    run = (true, st) /\
    (skipped_count st < length all_image_files)%nat /\
    (force_reprocess = false -> 1 <= updated_count st)%nat /\
    (store_accepts w ->
     exists j,
       all_image_files !! j = Some p /\
       photos st !! p
       = Some (record_for M w locations skip_location_lookup (1 + j) p) /\
       file_mtime (record_for M w locations skip_location_lookup (1 + j) p)
       = get_file_mtime w p /\
       processed_at (record_for M w locations skip_location_lookup (1 + j) p)
       = Some (now w (1 + j)) /\
       (1 <= image_count st + error_count st)%nat).
Proof.
  intros Hsd Hdb Hst Hin Hex Hfalsy.
  assert (Hskip : skip_file w force_reprocess
                    (resume_set force_reprocess db) p = false).
  { unfold skip_file. destruct force_reprocess; [done|].
    rewrite (resume_set_processed db p r Hdb Hst).
    destruct (unchanged (get_file_mtime w p) (file_mtime r)) eqn:Hu; [|done].
    apply unchanged_truthy in Hu as [Hc Hs]. destruct Hfalsy; congruence. }
  destruct (due_file_is_attempted p Hsd Hin Hex Hskip)
    as (st & Hrun & Hskipped & Hupd).
  exists st. split; [done|]. split; [done|]. split.
  - intros Hforce. apply Hupd; [done|]. rewrite Hforce.
    rewrite (resume_set_processed db p r Hdb Hst). eauto.
  - intros Hacc.
    destruct (due_file_is_recorded p Hsd Hacc Hin Hex Hskip)
      as (st' & j & Hrun' & Hj & Hrow & Hcount).
    rewrite Hrun in Hrun'. injection Hrun' as <-.
    exists j. split; [done|]. split; [done|].
    split; [apply record_for_mtime|]. split; [apply record_for_processed_at|].
    done.
Qed.


(** C7: every row the pipeline writes is well formed: status processed
    comes with a null error message, status failed with null EXIF-derived
    fields and with the path, the hash and modification time the run read for
    the file, and the processing time; hence every stored row is one the run
    found or a well-formed one. *)
Theorem written_rows_are_well_formed :
  (forall p r, (p, Extracted r) ∈ trace (snd run) -> well_formed w p r) /\
  (forall p r, photos (snd run) !! p = Some r ->
               db !! p = Some r \/ well_formed w p r).
Proof.
  rewrite process_images_unfold.
  apply (process_loop_invariant M w locations force_reprocess
           skip_location_lookup (resume_set force_reprocess db)
           (fun st =>
              (forall p r, (p, Extracted r) ∈ trace st -> well_formed w p r) /\
              (forall p r, photos st !! p = Some r ->
                           db !! p = Some r \/ well_formed w p r))).
  - intros idx q st [Htr Hph].
    destruct (process_file_action M w locations force_reprocess
                skip_location_lookup (resume_set force_reprocess db) idx q st)
      as (Hp1 & Ht1 & _).
    rewrite Hp1, Ht1. split.
    + intros p r [Hold|Hnew%list_elem_of_singleton]%elem_of_app;
        [by apply Htr|].
      injection Hnew as -> Ha. symmetry in Ha.
      by apply (file_action_well_formed M w locations skip_location_lookup
                  force_reprocess (resume_set force_reprocess db) idx).
    + intros p r. unfold apply_action. simpl.
      destruct (act idx q) as [| |r'|] eqn:Ha; try by apply Hph.
      destruct (decide (q = p)) as [->|Hne].
      * rewrite lookup_insert_eq. intros [= <-]. right.
        by apply (file_action_well_formed M w locations skip_location_lookup
                    force_reprocess (resume_set force_reprocess db) idx).
      * rewrite lookup_insert_ne by done. apply Hph.
  - simpl. split; [|by left]. intros p r H. by apply elem_of_nil in H.
Qed.

End Runs.

(** * Running twice (C8) *)

Section Idempotence.

Lemma feqb_refl (m : float) : is_nan m = false -> feqb m m = true.
Proof.
  destruct m as [s|s| |s m e]; try done; intros _.
  - by destruct s.
  - unfold feqb, SFeqb; simpl.
    rewrite Z.compare_refl.
    change (Pos.compare_cont Eq m m) with (Pos.compare m m).
    rewrite Pos.compare_refl. by destruct s.
Qed.

(** A file the loop skips has a processed record with an equal, non-zero
    modification time. *)
Lemma skip_file_true w force (db : gmap string PhotoRecord) p :
  skip_file w force (resume_set force db) p = true ->
  exists r, db !! p = Some r /\ status r = "processed" /\
            unchanged (get_file_mtime w p) (file_mtime r) = true.
Proof.
  unfold skip_file, resume_set. destruct force; [done|].
  rewrite processed_files_of_lookup.
  destruct (db !! p) as [r|]; simpl; [|done].
  destruct (bool_decide (status r = "processed")) eqn:Hs; [|done].
  apply bool_decide_eq_true in Hs. eauto.
Qed.

Lemma actions_all_skipped (act : nat -> string -> Action) l : forall idx,
  (forall p i, p ∈ l -> act i p = Skipped) ->
  Forall (fun pa => snd pa = Skipped) (actions act idx l) /\
  length (actions act idx l) = length l.
Proof.
  induction l as [|q rest IH]; intros idx Hall; simpl; [done|].
  destruct (IH (S idx)) as [HF HL].
  { intros p i Hp. apply Hall. by apply list_elem_of_further. }
  split; [|by rewrite HL].
  apply Forall_cons. split; [|done]. simpl. apply Hall, list_elem_of_here.
Qed.

Variable M : MathLib.

(** After an uninterrupted run whose rows the store accepted, every listed
    file that can be read and has a non-zero modification time has a
    processed record with that time. *)
Lemma first_run_records w locations all_image_files force skip
    (db : gmap string PhotoRecord) st p :
  (forall i, shutdown_requested w i 0%nat = false) ->
  store_accepts w ->
  process_images M w locations all_image_files force skip db = (true, st) ->
  p ∈ all_image_files -> read_with_mtime w p ->
  exists r, photos st !! p = Some r /\ status r = "processed" /\
            unchanged (get_file_mtime w p) (file_mtime r) = true.
Proof.
  intros Hsd Hacc Hrun Hin (f & tags & m & Hf & Hread & Hm & Ht & Hn).
  destruct (process_images_complete M w locations all_image_files force skip
              db Hsd) as (st' & Hrun' & _ & Hp & _).
  rewrite Hrun in Hrun'. injection Hrun' as <-. rewrite Hp.
  assert (Hex : path_exists w p = true).
  { unfold path_exists. apply bool_decide_eq_true. by rewrite Hf. }
  assert (Hrd : read_file w p = ReadTags tags).
  { unfold read_file. by rewrite Hf. }
  assert (Hmt : get_file_mtime w p = Some m).
  { unfold get_file_mtime. by rewrite Hf. }
  destruct (skip_file w force (resume_set force db) p) eqn:Hskip.
  - apply (replay_lookup_invariant
             (fun o => exists r, o = Some r /\ status r = "processed" /\
                        unchanged (get_file_mtime w p) (file_mtime r) = true)).
    + by apply skip_file_true in Hskip.
    + intros r Hr. apply actions_elem_of in Hr as [_ [i Hi]].
      unfold file_action in Hi. by rewrite Hex, Hskip in Hi.
  - apply (replay_written
             (fun r => status r = "processed" /\
                       unchanged (get_file_mtime w p) (file_mtime r) = true)).
    + intros r Hr. apply actions_elem_of in Hr as [_ [i Hi]].
      rewrite (file_action_accepted M w locations skip force
                 (resume_set force db) i p Hacc Hex Hskip) in Hi.
      injection Hi as ->.
      destruct (record_for_read M w locations skip i p tags Hrd)
        as (_ & H2 & _ & H4).
      split; [done|]. rewrite H4, Hmt. simpl.
      by rewrite Ht, (feqb_refl m Hn).
    + apply list_elem_of_lookup in Hin as [i Hi]. eexists.
      apply (list_elem_of_lookup_2 _ i).
      rewrite (actions_lookup _ _ _ _ _ _ _ _ _ _ Hi).
      by rewrite (file_action_accepted M w locations skip force
                    (resume_set force db) (1 + i) p Hacc Hex Hskip).
Qed.

(** C8, as amended: when every file found can be read and the store accepts
    the rows of the first run (so that the first run records every file as
    processed), every file has a readable, non-zero modification time, and
    the files do not change between the runs, a second run that is not
    forced leaves the stored records as the first run left them, and its
    skipped count is the number of files found. *)
Theorem second_run_skips_everything (w1 w2 : World)
    (locations1 locations2 : list LocationRow) (all_image_files : list string)
    (force1 skip1 skip2 : bool) (db : gmap string PhotoRecord) :
  files w2 = files w1 ->
  (forall i, shutdown_requested w1 i 0%nat = false) ->
  (forall i, shutdown_requested w2 i 0%nat = false) ->
  store_accepts w1 ->
  (forall p, p ∈ all_image_files -> read_with_mtime w1 p) ->
  exists st1 st2,
    process_images M w1 locations1 all_image_files force1 skip1 db
      = (true, st1) /\
    process_images M w2 locations2 all_image_files false skip2 (photos st1)
      = (true, st2) /\
    photos st2 = photos st1 /\
    skipped_count st2 = length all_image_files.
Proof.
  intros Hfiles Hsd1 Hsd2 Hacc Hgood.
  destruct (process_images_complete M w1 locations1 all_image_files force1
              skip1 db Hsd1) as (st1 & Hrun1 & _).
  destruct (process_images_complete M w2 locations2 all_image_files false
              skip2 (photos st1) Hsd2) as (st2 & Hrun2 & _ & Hp2 & Hs2).
  exists st1, st2. split; [done|]. split; [done|].
  destruct (actions_all_skipped
              (file_action M w2 locations2 false skip2
                 (resume_set false (photos st1))) all_image_files 1%nat)
    as [Hall Hlen].
  { intros p i Hp.
    destruct (first_run_records w1 locations1 all_image_files force1 skip1 db
                st1 p Hsd1 Hacc Hrun1 Hp (Hgood p Hp))
      as (r & Hr & Hst & Hun).
    destruct (Hgood p Hp) as (f & _ & _ & Hf & _).
    assert (Hex : path_exists w2 p = true).
    { unfold path_exists. apply bool_decide_eq_true. by rewrite Hfiles, Hf. }
    assert (Hmt : get_file_mtime w2 p = get_file_mtime w1 p).
    { unfold get_file_mtime. by rewrite Hfiles. }
    unfold file_action, skip_file.
    by rewrite Hex, (resume_set_processed (photos st1) p r Hr Hst), Hmt, Hun. }
  destruct (replay_skips _ (photos st1) Hall) as [Hsame Hcount].
  split; [by rewrite Hp2|]. by rewrite Hs2, Hcount, Hlen.
Qed.

End Idempotence.

(** ** Worked examples of the pipeline *)

Section PipelineExamples.



Lemma falsy_mtime_is_extracted_again_witness :
  exists st,
    process_images sampled_math (one_file_world photo_path epoch_file tuesday)
      [] [photo_path] false false {[ photo_path := epoch_record ]}
    = (true, st) /\
    (skipped_count st < length [photo_path])%nat /\
    (1 <= updated_count st)%nat /\
    exists j,
      [photo_path] !! j = Some photo_path /\
      photos st !! photo_path
      = Some (record_for sampled_math
                (one_file_world photo_path epoch_file tuesday) [] false
                (1 + j) photo_path) /\
      file_mtime (record_for sampled_math
                    (one_file_world photo_path epoch_file tuesday) [] false
                    (1 + j) photo_path)
      = get_file_mtime (one_file_world photo_path epoch_file tuesday)
          photo_path /\
      processed_at (record_for sampled_math
                      (one_file_world photo_path epoch_file tuesday) [] false
                      (1 + j) photo_path)
      = Some (now (one_file_world photo_path epoch_file tuesday) (1 + j)) /\
      (1 <= image_count st + error_count st)%nat.
Proof.
  destruct (falsy_mtime_is_extracted_again sampled_math
              (one_file_world photo_path epoch_file tuesday) [] [photo_path]
              false false {[ photo_path := epoch_record ]} photo_path
              epoch_record) as (st & Hrun & Hskipped & Hupdated & Hrow).
  - intros i. reflexivity.
  - apply lookup_singleton_eq.
  - reflexivity.
  - apply list_elem_of_here.
  - vm_compute. reflexivity.
  - left. reflexivity.
  - exists st. split; [exact Hrun|]. split; [exact Hskipped|].
    split; [apply Hupdated; reflexivity|].
    apply Hrow. intros idx r. reflexivity.
Defined.



Lemma second_run_skips_everything_witness :
  exists st1 st2,
    process_images sampled_math (one_file_world photo_path plain_file monday)
      [] [photo_path] false false ∅
    = (true, st1) /\
    process_images sampled_math (one_file_world photo_path plain_file tuesday)
      [] [photo_path] false false (photos st1)
    = (true, st2) /\
    photos st2 = photos st1 /\
    skipped_count st2 = length [photo_path].
Proof.
  apply (second_run_skips_everything sampled_math
           (one_file_world photo_path plain_file monday)
           (one_file_world photo_path plain_file tuesday)
           [] [] [photo_path] false false false ∅).
  - reflexivity.
  - intros i. reflexivity.
  - intros i. reflexivity.
  - intros idx r. reflexivity.
  - intros p Hp. apply list_elem_of_singleton in Hp as ->.
    exists plain_file, ∅, (of_Z 1700000000).
    repeat split; reflexivity.
Defined.

(** C8 as stated fails: the directory holds one file, unchanged between the
    runs, that cannot be read.  The second run skips nothing, counts the
    file as an error again and replaces its row by one with a new processing
    time. *)
Lemma unreadable_file_is_not_skipped :
  files (unreadable_world tuesday) = files (unreadable_world monday) /\
  length [photo_path] = 1%nat /\
  skipped_count unreadable_second_run = 0%nat /\
  error_count unreadable_second_run = 1%nat /\
  processed_at <$> photos unreadable_first_run !! photo_path
  = Some (Some monday) /\
  processed_at <$> photos unreadable_second_run !! photo_path
  = Some (Some tuesday).
Proof. repeat split; vm_compute; reflexivity. Qed.

End PipelineExamples.

(** * Further properties of a run *)

Section RunProperties.

Variable M : MathLib.
Variable w : World.
Variable locations : list LocationRow.
Variable all_image_files : list string.

(** When the store accepts every row, the loop body skips the file, finds
    it missing, or writes a row that is processed or failed. *)
Lemma accepted_action_cases force skip pf idx q :
  store_accepts w ->
  let a := file_action M w locations force skip pf idx q in
  a <> Dropped /\
  (forall r, a = Extracted r -> status r = "processed" \/ status r = "failed").
Proof.
  intros Hacc a. unfold a.
  destruct (path_exists w q) eqn:Hex.
  - destruct (skip_file w force pf q) eqn:Hskip.
    + unfold file_action. by rewrite Hex, Hskip.
    + rewrite (file_action_accepted M w locations skip force pf idx q Hacc Hex
                 Hskip).
      split; [done|]. intros r [= <-].
      rewrite (record_for_status M w locations skip idx q).
      destruct (read_file w q); [by left|by right].
  - unfold file_action. by rewrite Hex.
Qed.

Lemma count_actions_le_sum (f g h : Action -> bool) tr :
  (forall p a, (p, a) ∈ tr -> f a = true -> g a = true \/ h a = true) ->
  (count_actions f tr <= count_actions g tr + count_actions h tr)%nat.
Proof.
  induction tr as [|[q a] tr IH]; intros H; [done|].
  assert (IH' := IH (fun p b Hin => H p b (list_elem_of_further _ _ _ Hin))).
  unfold count_actions in *. rewrite !filter_cons. simpl.
  destruct (f a) eqn:Hf.
  - destruct (H q a (list_elem_of_here _ _) Hf) as [Hg|Hh].
    + rewrite Hg. simpl. destruct (decide (h a = true)); simpl; lia.
    + rewrite Hh. simpl. destruct (decide (g a = true)); simpl; lia.
  - simpl. destruct (decide (g a = true)), (decide (h a = true)); simpl; lia.
Qed.

(** X1: when the store accepts every row, every file the loop reaches is
    counted exactly once, as processed, skipped or error; the files reached
    are a prefix of the list, the whole list when the run is not
    interrupted; and the GPS, new and updated counters never exceed the
    number of rows written. *)
Theorem run_counts_every_file_once (force skip : bool)
    (db : gmap string PhotoRecord) :
  store_accepts w ->
  let run := process_images M w locations all_image_files force skip db in
  let st := snd run in
  (image_count st + skipped_count st + error_count st)%nat = length (trace st) /\
  image_count st = count_actions stores_processed (trace st) /\
  skipped_count st = count_actions is_skipped (trace st) /\
  error_count st = count_actions is_error_action (trace st) /\
  (trace st).*1 = take (length (trace st)) all_image_files /\
  (fst run = true ->
   (image_count st + skipped_count st + error_count st)%nat
   = length all_image_files) /\
  (gps_count st <= image_count st)%nat /\
  (new_count st + updated_count st <= image_count st + error_count st)%nat.
Proof.
  intros Hacc run st.
  destruct (run_counters M w locations all_image_files force skip db)
    as (H1 & H2 & H3 & H4 & _ & H6).
  fold run in H1, H2, H3, H4, H6. fold st in H1, H2, H3, H4, H6.
  destruct run as [fin st0] eqn:Hrun. simpl in st. subst st.
  unfold run in Hrun. rewrite process_images_unfold in Hrun.
  apply process_loop_prefix in Hrun as (j & Hj & Ht & _ & Hfin & _).
  simpl in Ht.
  assert (Hlen : length (trace st0) = j).
  { rewrite Ht, actions_length, length_take. lia. }
  assert (Hcases : forall p a, (p, a) ∈ trace st0 ->
            a <> Dropped /\
            (forall r, a = Extracted r ->
                       status r = "processed" \/ status r = "failed")).
  { intros p a Hin. rewrite Ht in Hin.
    apply actions_elem_of in Hin as (_ & i & ->).
    by apply accepted_action_cases. }
  assert (Hsum : (image_count st0 + skipped_count st0 + error_count st0)%nat
                 = length (trace st0)).
  { rewrite H1, H2, H3. apply count_actions_partition.
    - intros p Hin. by destruct (Hcases p Dropped Hin) as [Hd _].
    - intros p r Hin. by apply (Hcases p (Extracted r) Hin). }
  split; [done|]. repeat (split; [done|]).
  split; [by rewrite Hlen, Ht, actions_fst|].
  split; [simpl; intros ->; by rewrite Hsum, Hlen, Hfin|].
  split; [by apply H6|].
  etrans; [exact H4|]. rewrite H1, H3.
  apply count_actions_le_sum. intros p a Hin Ha.
  destruct (Hcases p a Hin) as [Hd Hst].
  destruct a as [| |r|]; try done.
  simpl. destruct (Hst r eq_refl) as [->| ->]; [by left|by right].
Qed.

(** X2: a run, interrupted or not, touches only the rows of the files it is
    given, and it never deletes a row. *)
Theorem run_touches_only_listed_files (force skip : bool)
    (db : gmap string PhotoRecord) :
  let st := snd (process_images M w locations all_image_files force skip db) in
  (forall p, p ∉ all_image_files -> photos st !! p = db !! p) /\
  (forall p, is_Some (db !! p) -> is_Some (photos st !! p)).
Proof.
  intros st. unfold st. rewrite process_images_unfold.
  apply (process_loop_invariant_in M w locations force skip
           (resume_set force db)
           (fun st =>
              (forall p, p ∉ all_image_files -> photos st !! p = db !! p) /\
              (forall p, is_Some (db !! p) -> is_Some (photos st !! p)))).
  - intros idx q s Hq [Hout Hdom].
    destruct (process_file_action M w locations force skip
                (resume_set force db) idx q s) as (Hp & _).
    rewrite Hp. unfold apply_action. simpl.
    destruct (file_action _ _ _ _ _ _ _ _) as [| |r|]; try done.
    split.
    + intros p Hp'. rewrite lookup_insert_ne; [by apply Hout|].
      intros ->. by apply Hp'.
    + intros p Hsome. destruct (decide (q = p)) as [->|Hne].
      * rewrite lookup_insert_eq. eauto.
      * rewrite lookup_insert_ne by done. by apply Hdom.
  - done.
Qed.

(** X3: with force-reprocess nothing is skipped; no file counts as updated
    and every processed file counts as new. *)
Theorem forced_run_skips_nothing (skip : bool) (db : gmap string PhotoRecord) :
  let st := snd (process_images M w locations all_image_files true skip db) in
  skipped_count st = 0%nat /\ updated_count st = 0%nat /\
  new_count st = image_count st /\
  (forall p, (p, Skipped) ∉ trace st).
Proof.
  intros st. unfold st. rewrite process_images_unfold.
  apply (process_loop_invariant M w locations true skip (resume_set true db)
           (fun st =>
              skipped_count st = 0%nat /\ updated_count st = 0%nat /\
              new_count st = image_count st /\
              (forall p, (p, Skipped) ∉ trace st))).
  - intros idx q s (H1 & H2 & H3 & H4).
    destruct (process_file_action M w locations true skip
                (resume_set true db) idx q s) as (_ & Ht & Hs).
    destruct (process_file_counters M w locations true skip
                (resume_set true db) idx q s) as (Hi & _ & Hu & Hn & _).
    set (a := file_action M w locations true skip (resume_set true db) idx q)
      in *.
    assert (Ha : is_skipped a = false).
    { unfold a. destruct (path_exists w q) eqn:Hex.
      - pose proof (file_action_due M w locations skip true
                      (resume_set true db) idx q Hex eq_refl) as Hat.
        by destruct (file_action _ _ _ _ _ _ _ _).
      - unfold file_action. by rewrite Hex. }
    rewrite Ht, Hs, Hi, Hu, Hn, Ha.
    assert (Hk : bool_decide (is_Some (resume_set true db !! q)) = false).
    { apply bool_decide_eq_false_2. unfold resume_set. rewrite lookup_empty.
      by intros [x Hx]. }
    rewrite Hk, !andb_false_r, andb_true_r. simpl.
    split; [lia|]. split; [lia|]. split; [lia|].
    intros p [Hin|Hin%list_elem_of_singleton]%elem_of_app;
      [by apply (H4 p)|].
    injection Hin as _ Hin. by rewrite <- Hin in Ha.
  - simpl. repeat split. intros p Hin. by apply elem_of_nil in Hin.
Qed.

End RunProperties.

Section RunProperties2.

Variable M : MathLib.
Variable w : World.
Variable locations : list LocationRow.
Variable all_image_files : list string.
Variables force_reprocess skip_location_lookup : bool.
Variable db : gmap string PhotoRecord.

Local Abbreviation run :=
  (process_images M w locations all_image_files force_reprocess
     skip_location_lookup db).
Local Abbreviation act :=
  (file_action M w locations force_reprocess skip_location_lookup
     (resume_set force_reprocess db)).

(** X4: a run interrupted when the loop reaches its [j]-th file returns
    [False] and leaves the store and the counters exactly as a complete run
    over the first [j] files leaves them. *)
Theorem interrupted_run_is_run_of_prefix (j : nat) :
  (j < length all_image_files)%nat ->
  (forall i, (i < j)%nat -> shutdown_requested w (1 + i) 0%nat = false) ->
  shutdown_requested w (1 + j) 0%nat = true ->
  exists st,
    run = (false, st) /\
    process_images M w locations (take j all_image_files) force_reprocess
      skip_location_lookup db = (true, st).
Proof.
  intros Hj Hbefore Hat. rewrite !process_images_unfold.
  by apply process_loop_interrupted.
Qed.

(** The GPS block of a row: what it can and cannot contain. *)
Lemma extract_gps_shape sd tags :
  let '(la, lo, loc, counted) :=
    extract_gps M locations skip_location_lookup sd tags in
  (is_Some loc -> is_Some lo) /\ (is_Some lo -> is_Some la) /\
  (counted = true <-> is_Some lo) /\
  (skip_location_lookup = true -> loc = None).
Proof.
  unfold extract_gps.
  assert (Hnone : forall A, is_Some (@None A) -> False)
    by (intros A [x Hx]; discriminate Hx).
  destruct (tags !! "GPS GPSLatitude") as [tlat|];
    [|repeat split; try done; intros H; by apply Hnone in H].
  destruct (tags !! "GPS GPSLongitude") as [tlon|];
    [|repeat split; try done; intros H; by apply Hnone in H].
  destruct (dms_to_decimal (values tlat) _) as [la|e];
    [|repeat split; try done; intros H; by apply Hnone in H].
  destruct (dms_to_decimal (values tlon) _) as [lo|e];
    [|repeat split; try done; intros H; by apply Hnone in H].
  repeat split; eauto. intros ->. done.
Qed.

Lemma record_for_gps idx p :
  let r := record_for M w locations skip_location_lookup idx p in
  (is_Some (location r) -> is_Some (gps_lon r)) /\
  (is_Some (gps_lon r) -> is_Some (gps_lat r)) /\
  (skip_location_lookup = true -> location r = None).
Proof.
  unfold record_for. destruct (read_file w p) as [tags|e]; simpl.
  - unfold processed_record.
    pose proof (extract_gps_shape (fun k => shutdown_requested w idx (S k))
                  tags) as H.
    destruct (extract_gps _ _ _ _ _) as [[[la lo] loc] counted]. simpl.
    tauto.
  - destruct (has_ExifReadError w); [destruct e|];
      repeat split; try done; intros [x Hx]; discriminate Hx.
Qed.

(** The same of every row the loop body writes. *)
Lemma file_action_gps idx p r :
  act idx p = Extracted r ->
  (is_Some (location r) -> is_Some (gps_lon r)) /\
  (is_Some (gps_lon r) -> is_Some (gps_lat r)) /\
  (skip_location_lookup = true -> location r = None).
Proof.
  intros Ha.
  destruct (file_action_written M w locations skip_location_lookup
              force_reprocess (resume_set force_reprocess db) idx p r Ha)
    as (_ & _ & [(tags & _ & ->)|[msg ->]]).
  - apply record_for_gps.
  - repeat split; try done; intros [x Hx]; discriminate Hx.
Qed.

(** X5: a row a run writes never has a location without both coordinates
    nor a longitude without a latitude; and with skip-location no row it
    writes has a location. *)
Theorem written_rows_gps_shape :
  forall p r,
    (p, Extracted r)
    ∈ trace (snd (process_images M w locations all_image_files
                    force_reprocess skip_location_lookup db)) ->
    (is_Some (location r) -> is_Some (gps_lat r) /\ is_Some (gps_lon r)) /\
    (is_Some (gps_lon r) -> is_Some (gps_lat r)) /\
    (skip_location_lookup = true -> location r = None).
Proof.
  rewrite process_images_unfold.
  apply (process_loop_invariant M w locations force_reprocess
           skip_location_lookup (resume_set force_reprocess db)
           (fun st => forall p r, (p, Extracted r) ∈ trace st ->
              (is_Some (location r) ->
               is_Some (gps_lat r) /\ is_Some (gps_lon r)) /\
              (is_Some (gps_lon r) -> is_Some (gps_lat r)) /\
              (skip_location_lookup = true -> location r = None))).
  - intros idx q st Hst p r.
    destruct (process_file_action M w locations force_reprocess
                skip_location_lookup (resume_set force_reprocess db) idx q st)
      as (_ & Ht & _).
    rewrite Ht. intros [Hold|Hnew%list_elem_of_singleton]%elem_of_app;
      [by apply (Hst p)|].
    injection Hnew as -> Ha. symmetry in Ha.
    destruct (file_action_gps idx q r Ha) as (H1 & H2 & H3). tauto.
  - simpl. intros p r H. by apply elem_of_nil in H.
Qed.

(** X6: a file with a processed row whose stored modification time equals
    the current, non-zero one is skipped by a run that is not forced, and its
    row is left as it is; the content hash plays no part. *)
Theorem unchanged_mtime_is_skipped (p : string) (r : PhotoRecord) :
  (forall i, shutdown_requested w i 0%nat = false) ->
  force_reprocess = false ->
  db !! p = Some r -> status r = "processed" ->
  path_exists w p = true ->
  unchanged (get_file_mtime w p) (file_mtime r) = true ->
  exists st,
    run = (true, st) /\
    (forall i, all_image_files !! i = Some p ->
               trace st !! i = Some (p, Skipped)) /\
    photos st !! p = Some r.
Proof.
  intros Hsd Hforce Hdb Hst Hex Hun.
  destruct (process_images_complete M w locations all_image_files
              force_reprocess skip_location_lookup db Hsd)
    as (st & Hrun & Ht & Hp & _).
  assert (Hact : forall i, act i p = Skipped).
  { intros i. unfold file_action, skip_file. rewrite Hex. simpl.
    rewrite Hforce, (resume_set_processed db p r Hdb Hst). by rewrite Hun. }
  exists st. split; [done|]. split.
  - intros i Hi. by rewrite Ht, (actions_lookup _ _ _ _ _ _ _ _ _ _ Hi), Hact.
  - rewrite Hp.
    apply (replay_lookup_invariant (fun o => o = Some r)); [done|].
    intros r' Hr'. apply actions_elem_of in Hr' as [_ [i Hi]].
    by rewrite Hact in Hi.
Qed.

(** X7: after a run that is not interrupted and whose rows the store
    accepts, every listed file that exists has a row, with status processed
    or failed. *)
Theorem complete_run_covers_existing_files (p : string) :
  (forall i, shutdown_requested w i 0%nat = false) ->
  store_accepts w ->
  p ∈ all_image_files ->
  path_exists w p = true ->
  exists st r,
    run = (true, st) /\ photos st !! p = Some r /\
    (status r = "processed" \/ status r = "failed").
Proof.
  intros Hsd Hacc Hin Hex.
  destruct (process_images_complete M w locations all_image_files
              force_reprocess skip_location_lookup db Hsd)
    as (st & Hrun & Ht & Hp & _).
  destruct (skip_file w force_reprocess (resume_set force_reprocess db) p)
    eqn:Hskip.
  - destruct (skip_file_true w force_reprocess db p Hskip) as (r & Hr & Hs & _).
    exists st, r. split; [done|]. split; [|by left].
    rewrite Hp.
    apply (replay_lookup_invariant (fun o => o = Some r)); [done|].
    intros r' Hr'. apply actions_elem_of in Hr' as [_ [i Hi]].
    unfold file_action in Hi. by rewrite Hex, Hskip in Hi.
  - assert (Hact : forall i, act i p
                   = Extracted (record_for M w locations skip_location_lookup
                                  i p)).
    { intros i. by apply file_action_accepted. }
    destruct (replay_written
                (fun r => status r = "processed" \/ status r = "failed") p
                (actions act 1 all_image_files) db) as (r & Hr & Hs).
    + intros r Hr. apply actions_elem_of in Hr as [_ [i Hi]].
      rewrite Hact in Hi. injection Hi as ->. rewrite record_for_status.
      destruct (read_file w p); [by left|by right].
    + apply list_elem_of_lookup in Hin as [i Hi]. eexists.
      apply (list_elem_of_lookup_2 _ i).
      by rewrite (actions_lookup _ _ _ _ _ _ _ _ _ _ Hi), Hact.
    + exists st, r. by rewrite Hp.
Qed.

(** X8: a listed file that no longer exists is counted as an error, but
    nothing is written for it: the row it had, if any, stays in the store. *)
Theorem vanished_file_keeps_its_row (p : string) :
  (forall i, shutdown_requested w i 0%nat = false) ->
  p ∈ all_image_files ->
  path_exists w p = false ->
  exists st,
    run = (true, st) /\
    (forall i, all_image_files !! i = Some p ->
               trace st !! i = Some (p, Missing)) /\
    photos st !! p = db !! p /\
    (1 <= error_count st)%nat.
Proof.
  intros Hsd Hin Hex.
  destruct (process_images_complete M w locations all_image_files
              force_reprocess skip_location_lookup db Hsd)
    as (st & Hrun & Ht & Hp & _).
  assert (Hact : forall i, act i p = Missing).
  { intros i. unfold file_action. by rewrite Hex. }
  exists st. split; [done|]. split; [|split].
  - intros i Hi. by rewrite Ht, (actions_lookup _ _ _ _ _ _ _ _ _ _ Hi), Hact.
  - rewrite Hp.
    apply (replay_lookup_invariant (fun o => o = db !! p)); [done|].
    intros r' Hr'. apply actions_elem_of in Hr' as [_ [i Hi]].
    by rewrite Hact in Hi.
  - destruct (run_counters M w locations all_image_files
                force_reprocess skip_location_lookup db)
      as (_ & _ & He & _).
    rewrite Hrun in He. simpl in He. rewrite He, Ht.
    apply list_elem_of_lookup in Hin as [i Hi].
    pose proof (actions_lookup M w locations force_reprocess
                  skip_location_lookup (resume_set force_reprocess db)
                  all_image_files 1%nat i p Hi) as Ha.
    rewrite Hact in Ha. apply list_elem_of_lookup_2 in Ha.
    unfold count_actions.
    assert (Hf : (p, Missing) ∈
              filter (fun pa : string * Action => is_error_action (snd pa) = true)
                (actions act 1 all_image_files)).
    { apply list_elem_of_filter. by split. }
    destruct (filter _ _); [by apply elem_of_nil in Hf|simpl; lia].
Qed.



End RunProperties2.

(** * Further properties of the gazetteer import *)

Section StringFacts.

Lemma string_app_nil_r (s : string) : s +:+ EmptyString = s.
Proof.
  induction s as [|c s IH]; [done|].
  change (String c (s +:+ EmptyString) = String c s). by rewrite IH.
Qed.

Lemma string_app_assoc (a b c : string) : (a +:+ b) +:+ c = a +:+ (b +:+ c).
Proof.
  induction a as [|x a IH]; [done|].
  change (String x ((a +:+ b) +:+ c) = String x (a +:+ (b +:+ c))).
  by rewrite IH.
Qed.

Lemma string_rev_app_spec (a b : string) :
  String.rev_app a b = String.rev a +:+ b.
Proof.
  unfold String.rev. revert b.
  induction a as [|x a IH]; intros b; simpl; [done|].
  rewrite (IH (String x b)), (IH (String x EmptyString)).
  by rewrite string_app_assoc.
Qed.

Lemma string_rev_cons (x : ascii) (a : string) :
  String.rev (String x a) = String.rev a +:+ String x EmptyString.
Proof. unfold String.rev at 1. simpl. apply string_rev_app_spec. Qed.

Lemma string_rev_app (a b : string) :
  String.rev (a +:+ b) = String.rev b +:+ String.rev a.
Proof.
  induction a as [|x a IH].
  - change (String.rev b = String.rev b +:+ EmptyString).
    by rewrite string_app_nil_r.
  - change (String.rev (String x (a +:+ b))
            = String.rev b +:+ String.rev (String x a)).
    by rewrite !string_rev_cons, IH, string_app_assoc.
Qed.

Lemma string_rev_involutive (s : string) : String.rev (String.rev s) = s.
Proof.
  induction s as [|x s IH]; [done|].
  rewrite string_rev_cons, string_rev_app, IH. done.
Qed.

End StringFacts.

Section GazetteerProperties.

Import Gazetteer.

Variable P : Parsers.

(** [lstrip] drops a prefix and leaves no leading whitespace. *)
Lemma lstrip_spec (s : string) :
  (exists v, s = v +:+ lstrip s) /\
  (lstrip s = EmptyString \/
   exists c r, lstrip s = String c r /\ isspace c = false).
Proof.
  induction s as [|c s [[v Hv] IH]]; simpl.
  - split; [by exists EmptyString|by left].
  - destruct (isspace c) eqn:Hc.
    + split; [|done]. exists (String c v).
      change (String c s = String c (v +:+ lstrip s)). by rewrite <- Hv.
    + split; [by exists EmptyString|]. right. eauto.
Qed.

Lemma strip_head (s : string) :
  strip s = EmptyString \/
  exists c r, strip s = String c r /\ isspace c = false.
Proof.
  unfold strip.
  destruct (lstrip_spec s) as [_ Hhead].
  destruct (lstrip_spec (String.rev (lstrip s))) as [[v Hv] _].
  apply (f_equal String.rev) in Hv.
  rewrite string_rev_involutive, string_rev_app in Hv.
  destruct (String.rev (lstrip (String.rev (lstrip s)))) as [|c r];
    [by left|].
  right. exists c, r. split; [done|].
  change (lstrip s = String c (r +:+ String.rev v)) in Hv.
  destruct Hhead as [Hnil|(c' & r' & Hc' & Hsp)]; congruence.
Qed.

Lemma split_tab_from_head (s : string) : forall acc,
  acc <> EmptyString ->
  exists h t, split_tab_from acc s = h :: t /\ h <> EmptyString.
Proof.
  induction s as [|c s IH]; intros acc Hacc; simpl; [by eauto|].
  destruct (bool_decide (c = tab)); [by eauto|].
  apply IH. by destruct acc.
Qed.

(** X9: after the line is stripped its first field is empty only when the
    whole line is blank, so on a row of two or more fields the id is never
    read as missing ([strip] has removed the tab that followed an empty id
    field). *)
Theorem missing_id_only_on_blank_line (line : string) :
  parse_id P (split_tab (strip line)) = Returns None ->
  split_tab (strip line) = [EmptyString].
Proof.
  destruct (strip_head line) as [->|(c & r & -> & Hc)]; [done|].
  unfold split_tab. simpl.
  destruct (bool_decide (c = tab)) eqn:Htab.
  { apply bool_decide_eq_true in Htab. subst c. done. }
  destruct (split_tab_from_head r (EmptyString +:+ String c EmptyString))
    as (h & t & -> & Hh); [done|].
  unfold parse_id, field_nonempty. simpl.
  destruct h as [|x h]; [done|].
  by destruct (py_int P (String x h)).
Qed.

(** What one line can do to the import state. *)
Lemma import_line_step line st st' :
  import_line P line st = Returns st' ->
  committed st' = committed st /\
  ((rows st' = rows st /\ imported_count st' = imported_count st /\
    (error_count st' = error_count st \/
     error_count st' = S (error_count st))) \/
   (imported_count st' = S (imported_count st) /\
    error_count st' = error_count st /\
    (rows st' = rows st \/
     exists row, rows st' = rows st ++ [row] /\
                 has_id (geonameid row) (rows st) = false /\
                 geonameid row <> 0 /\ in_int64 (geonameid row)))).
Proof.
  unfold import_line.
  destruct (length (split_tab (strip line)) <? 9)%nat.
  { intros [= <-]. simpl. split; [done|]. left. eauto. }
  unfold import_fields.
  destruct (parse_id P _) as [id|e]; simpl.
  2:{ destruct e; try done; intros [= <-]; simpl; split; try done;
      left; eauto. }
  destruct (parse_coordinate P _ 4) as [la|e]; simpl.
  2:{ destruct e; try done; intros [= <-]; simpl; split; try done;
      left; eauto. }
  destruct (parse_coordinate P _ 5) as [lo|e]; simpl.
  2:{ destruct e; try done; intros [= <-]; simpl; split; try done;
      left; eauto. }
  destruct id as [id|], la as [la|], lo as [lo|];
    try (intros [= <-]; split; [done|left; eauto]).
  destruct (Z.eqb_spec id 0) as [->|Hid];
    [intros [= <-]; split; [done|left; eauto]|].
  unfold insert_or_ignore. simpl.
  destruct ((id <? - 2 ^ 63) || (2 ^ 63 <=? id)) eqn:Hrange; [done|].
  intros [= <-]. simpl. split; [done|]. right. split; [done|]. split; [done|].
  destruct (has_id id (rows st)) eqn:Hhas; [by left|].
  right. eexists. split; [done|]. simpl. split; [done|]. split; [done|].
  apply orb_false_iff in Hrange as [H1 H2]. unfold in_int64. lia.
Qed.

Lemma has_id_false id (l : list LocationRow) :
  has_id id l = false -> id ∉ geonameid <$> l.
Proof.
  unfold has_id. intros H Hin.
  apply list_elem_of_fmap in Hin as (r & -> & Hr).
  assert (existsb (fun r0 => geonameid r0 =? geonameid r) l = true).
  { apply existsb_exists. exists r. split; [by apply list_elem_of_In|].
    apply Z.eqb_refl. }
  congruence.
Qed.

(** The invariants of the loop over the lines. *)
Lemma import_lines_facts sd lines : forall n st ok st',
  import_lines P sd n lines st = (ok, st') ->
  committed st `prefix_of` rows st ->
  NoDup (geonameid <$> rows st) ->
  rows st' = committed st' /\
  NoDup (geonameid <$> rows st') /\
  (forall r, r ∈ rows st' ->
             r ∈ rows st \/ (geonameid r <> 0 /\ in_int64 (geonameid r))) /\
  (imported_count st <= imported_count st')%nat /\
  (error_count st <= error_count st')%nat /\
  (imported_count st' + error_count st'
   <= imported_count st + error_count st + length lines)%nat /\
  (length (rows st') + imported_count st
   <= length (rows st) + imported_count st')%nat.
Proof.
  induction lines as [|line rest IH]; intros n st ok st' Hrun Hpre Hnd;
    simpl in Hrun.
  - injection Hrun as <- <-. simpl. repeat split; eauto; lia.
  - destruct (sd n).
    { injection Hrun as <- <-. simpl. repeat split; eauto; lia. }
    set (st1 := if (n `mod` 100000 =? 0)%N then commit st else st) in Hrun.
    assert (Hst1 : rows st1 = rows st /\ imported_count st1 = imported_count st
                   /\ error_count st1 = error_count st
                   /\ committed st1 `prefix_of` rows st1).
    { unfold st1. destruct (n `mod` 100000 =? 0)%N; simpl; [|done].
      repeat split; done. }
    destruct Hst1 as (Hr1 & Hi1 & He1 & Hpre1).
    destruct (import_line P line st1) as [st2|e] eqn:Hline.
    + apply import_line_step in Hline as [Hc2 Hcases].
      assert (Hpre2 : committed st2 `prefix_of` rows st2).
      { rewrite Hc2.
        destruct Hcases as [(-> & _)|(_ & _ & [-> | (row & -> & _)])];
          try done.
        by apply prefix_app_r. }
      assert (Hnd2 : NoDup (geonameid <$> rows st2)).
      { destruct Hcases as [(-> & _)|(_ & _ & [-> | (row & -> & Hid & _)])];
          try by rewrite Hr1.
        rewrite fmap_app. simpl. apply NoDup_app. rewrite Hr1 in *.
        split; [done|]. split; [|apply NoDup_singleton].
        intros x Hx ->%list_elem_of_singleton.
        by apply has_id_false in Hid. }
      destruct (IH _ _ _ _ Hrun Hpre2 Hnd2)
        as (H1 & H2 & H3 & H4 & H5 & H6 & H7).
      split; [done|]. split; [done|]. split.
      { intros r Hr. destruct (H3 r Hr) as [Hin|Hnew]; [|by right].
        destruct Hcases as [(Hrows & _)|(_ & _ & [Hrows|(row & Hrows & _ & Hz)])];
          rewrite Hrows, ?Hr1 in Hin; try by left.
        apply elem_of_app in Hin as [Hin| ->%list_elem_of_singleton];
          [by left|by right]. }
      assert (Hstep :
        (length (rows st2) + imported_count st1
         <= length (rows st1) + imported_count st2)%nat /\
        (imported_count st1 <= imported_count st2)%nat /\
        (error_count st1 <= error_count st2)%nat /\
        (imported_count st2 + error_count st2
         <= imported_count st1 + error_count st1 + 1)%nat).
      { destruct Hcases
          as [(Hrows & Hi & [He|He])|(Hi & He & [Hrows|(row & Hrows & _)])];
          rewrite Hrows, ?length_app; simpl; lia. }
      apply (f_equal length) in Hr1. simpl. repeat split; lia.
    + injection Hrun as <- <-. simpl.
      split; [done|]. split.
      { destruct Hpre1 as [k Hk]. rewrite Hr1 in Hk. rewrite Hk in Hnd.
        rewrite fmap_app in Hnd. by apply NoDup_app in Hnd as [Hnd _]. }
      split.
      { intros r Hr. left. destruct Hpre1 as [k Hk]. rewrite Hr1 in Hk.
        rewrite Hk. apply elem_of_app. by left. }
      destruct Hpre1 as [k Hk]. rewrite Hr1 in Hk.
      apply (f_equal length) in Hk. rewrite length_app in Hk.
      repeat split; lia.
Qed.

(** X10: when the ids of the table are unique, they are unique after an
    import, whatever the file holds; every row the import adds has a
    non-zero 64-bit id; nothing is left uncommitted; the two counters
    together count at most the lines of the file; and the table grows by at
    most the number of rows counted as imported. *)
Theorem import_result_shape (sd : N -> bool) (table : list LocationRow)
    (locations_file : option (list string)) :
  NoDup (geonameid <$> table) ->
  let st := snd (import_locations_to_db P sd table locations_file) in
  NoDup (geonameid <$> rows st) /\
  committed st = rows st /\
  (forall r, r ∈ rows st ->
             r ∈ table \/ (geonameid r <> 0 /\ in_int64 (geonameid r))) /\
  (imported_count st + error_count st
   <= length (default [] locations_file))%nat /\
  (length (rows st) <= length table + imported_count st)%nat.
Proof.
  intros Hnd st. unfold st, import_locations_to_db.
  destruct table as [|r0 table'].
  - destruct locations_file as [lines|]; simpl.
    + destruct (import_lines P sd 1 lines _) as [ok st'] eqn:Hrun.
      apply import_lines_facts in Hrun
        as (H1 & H2 & H3 & H4 & H5 & H6 & H7); simpl in *; try done.
      repeat split; try done; lia.
    + repeat split; first [done | lia | by constructor].
  - simpl. repeat split; first [done | lia | by left].
Qed.


End GazetteerProperties.

(** * Further properties of the location resolver *)

Section ResolverProperties.

Variable M : MathLib.
Variables lat lon : float.

Local Abbreviation dist := (distance_to M lat lon).

(** X13: the answer is never invented and never out of range: a string
    [find_nearest_location] returns is the formatted string of a row of the
    table that lies inside the bounding box, has a non-empty name and whose
    distance is at most the radius. *)
Theorem found_place_is_a_row_within_radius (rows : list LocationRow)
    (max : float) (sd : nat -> bool) (s : string) :
  find_nearest_location M lat lon rows max sd = Returns (Some s) ->
  exists buffers c d,
    box_buffers M lat max = Returns buffers /\
    c ∈ rows /\ c ∈ box_candidates rows lat lon buffers /\
    dist c = Returns d /\ fleb d max = true /\
    str_truthy (name c) = true /\
    format_location_string (name c) (admin1_code c) (country_code c) = Some s.
Proof.
  unfold find_nearest_location, find_nearest_location_body.
  destruct (sd 0%nat); [done|].
  destruct (box_buffers M lat max) as [buffers|e] eqn:Hbox; simpl; [|done].
  destruct (box_candidates rows lat lon buffers) as [|c0 rest] eqn:Hc; [done|].
  destruct (scan_candidates M lat lon sd 1 (c0 :: rest) inf None)
    as [[d [[[n a] cc]|]|]|e] eqn:Hscan; simpl; try done.
  destruct (fleb d max) eqn:Hle; [|done].
  intros Hs.
  apply scan_candidates_picks in Hscan as [[_ [=]]|(c & Hin & Hd & [= -> -> ->])].
  injection Hs as Hs.
  exists buffers, c, d. rewrite Hc.
  assert (Hrow : c ∈ rows).
  { rewrite <- Hc in Hin. unfold box_candidates, select_box in Hin.
    by apply list_elem_of_filter in Hin as [_ Hin]. }
  repeat (split; [done|]). split; [|done].
  unfold format_location_string in Hs.
  by destruct (str_truthy (name c)).
Qed.

(** A shutdown request ends the loop or changes nothing. *)
Lemma scan_candidates_shutdown sd cands : forall k j min nearest,
  scan_candidates M lat lon sd k cands min nearest = Returns ScanShutdown \/
  scan_candidates M lat lon sd k cands min nearest
  = scan_candidates M lat lon never j cands min nearest.
Proof.
  induction cands as [|c rest IH]; intros k j min nearest; simpl; [by right|].
  destruct (sd k); [by left|].
  destruct (haversine_distance M lat lon (latitude c) (longitude c))
    as [dc|e]; simpl; [|by right].
  destruct (fltb dc min); [|apply IH].
  destruct (fltb dc half_km); [by right|apply IH].
Qed.

(** X14: a shutdown request can only turn the answer into null: whatever
    the flag does during the lookup, [find_nearest_location] returns null or
    what it returns when no shutdown is requested. *)
Theorem shutdown_only_cancels (rows : list LocationRow) (max : float)
    (sd : nat -> bool) :
  find_nearest_location M lat lon rows max sd = Returns None \/
  find_nearest_location M lat lon rows max sd
  = find_nearest_location M lat lon rows max never.
Proof.
  unfold find_nearest_location, find_nearest_location_body.
  destruct (sd 0%nat); [by left|]. simpl.
  destruct (box_buffers M lat max) as [buffers|e]; simpl; [|by right].
  destruct (box_candidates rows lat lon buffers) as [|c0 rest]; [by right|].
  destruct (scan_candidates_shutdown sd (c0 :: rest) 1 1 inf None)
    as [-> | ->]; [by left|by right].
Qed.

(** Once a candidate is the nearest so far, candidates that are not strictly
    nearer leave it in place. *)
Lemma scan_candidates_keeps d p rest : forall k,
  (forall c, c ∈ rest -> exists d', dist c = Returns d' /\ fltb d' d = false) ->
  scan_candidates M lat lon never k rest d (Some p)
  = Returns (ScanDone d (Some p)).
Proof.
  induction rest as [|c rest IH]; intros k Hrest; simpl; [done|].
  destruct (Hrest c) as (d' & Hd' & Hlt); [apply list_elem_of_here|].
  unfold distance_to in Hd'. rewrite Hd'. simpl. rewrite Hlt.
  apply IH. intros c' Hc'. apply Hrest. by apply list_elem_of_further.
Qed.

(** X15: ties go to the candidate the engine yields first: when no later
    candidate is strictly nearer than the first one, the first one is the one
    answered (if it is within the radius). *)
Theorem first_of_equally_near_wins (rows : list LocationRow) (max : float)
    (buffers : float * float) (c : LocationRow) (rest : list LocationRow)
    (d : float) :
  box_buffers M lat max = Returns buffers ->
  box_candidates rows lat lon buffers = c :: rest ->
  dist c = Returns d ->
  fltb d inf = true ->
  (forall c', c' ∈ rest -> exists d', dist c' = Returns d' /\ fltb d' d = false) ->
  find_nearest_location M lat lon rows max never
  = Returns (if fleb d max
             then format_location_string (name c) (admin1_code c)
                    (country_code c)
             else None).
Proof.
  intros Hbox Hc Hd Hfin Hrest.
  unfold find_nearest_location, find_nearest_location_body.
  simpl. rewrite Hbox. simpl. rewrite Hc. simpl.
  unfold distance_to in Hd. rewrite Hd. simpl.
  change (fltb d inf) with (fltb d inf). rewrite Hfin.
  destruct (fltb d half_km); simpl; [done|].
  by rewrite (scan_candidates_keeps d (place_of c) rest 2 Hrest).
Qed.

End ResolverProperties.

Section FormatProperties.

(** X16: [format_location_string] returns null exactly when the name is
    missing or empty; otherwise it returns the name followed by the admin1
    code and the country code, each preceded by a comma and a space and each
    left out when missing or empty. *)
Theorem format_location_string_shape (n a c : option string) :
  (format_location_string n a c = None <-> str_truthy n = false) /\
  (forall s, format_location_string n a c = Some s ->
     s = default EmptyString n
         +:+ (if str_truthy a then ", " +:+ default EmptyString a
              else EmptyString)
         +:+ (if str_truthy c then ", " +:+ default EmptyString c
              else EmptyString)).
Proof.
  unfold format_location_string. destruct (str_truthy n) eqn:Hn; simpl.
  - split; [by split|]. intros s [= <-].
    destruct (str_truthy a), (str_truthy c); simpl;
      rewrite ?string_app_nil_r, ?string_app_assoc; done.
  - split; [by split|]. done.
Qed.

End FormatProperties.

(** * The GPS block of [process_images] *)

Section GpsBlock.

(** Only whether the reference is South or West matters. *)
Lemma dms_to_decimal_ref (dms : list Ratio) (ref1 ref2 : string) :
  ref_is_south_or_west ref1 = ref_is_south_or_west ref2 ->
  dms_to_decimal dms ref1 = dms_to_decimal dms ref2.
Proof. intros H. unfold dms_to_decimal. bind_cases. by rewrite H. Qed.

Lemma ratio_to_float_zero_den (r : Ratio) :
  den r = 0 -> exists e, ratio_to_float r = Raises e.
Proof.
  intros H. unfold ratio_to_float. rewrite H.
  destruct (float_of_int (num r)); simpl; eauto.
Qed.

(** Fewer than three rationals, or a zero denominator among the first
    three, make the conversion raise. *)
Lemma dms_malformed_raises (dms : list Ratio) (ref : string) :
  (length dms < 3)%nat \/
  (exists i r, (i < 3)%nat /\ dms !! i = Some r /\ den r = 0) ->
  exists e, dms_to_decimal dms ref = Raises e.
Proof.
  intros Hbad. unfold dms_to_decimal, index.
  destruct dms as [|r0 [|r1 [|r2 rest]]]; simpl.
  - eauto.
  - destruct (ratio_to_float r0); simpl; eauto.
  - destruct (ratio_to_float r0); simpl; eauto.
    destruct (ratio_to_float r1); simpl; eauto.
  - destruct Hbad as [Hlen|(i & r & Hi & Hl & Hden)]; [simpl in Hlen; lia|].
    destruct i as [|[|[|i]]]; simpl in Hl; [| | |lia];
      injection Hl as <-;
      destruct (ratio_to_float_zero_den _ Hden) as [e He].
    + rewrite He. simpl. eauto.
    + destruct (ratio_to_float r0); simpl; eauto. rewrite He. simpl. eauto.
    + destruct (ratio_to_float r0); simpl; eauto.
      destruct (ratio_to_float r1); simpl; eauto. rewrite He. simpl. eauto.
Qed.

Variable M : MathLib.
Variable locations : list LocationRow.
Variable skip_location_lookup : bool.
Variable sd : nat -> bool.

(** X17: a malformed GPS tag never fails the file, it is swallowed: with a
    malformed latitude (fewer than three rationals or a zero denominator)
    no coordinate is kept; with a good latitude and a malformed longitude the
    latitude alone is kept; in both cases there is no location and the GPS
    counter does not move. *)
Theorem malformed_gps_is_swallowed (tags : gmap string IfdTag)
    (tlat tlon : IfdTag) :
  tags !! "GPS GPSLatitude" = Some tlat ->
  tags !! "GPS GPSLongitude" = Some tlon ->
  let malformed (t : IfdTag) :=
    (length (values t) < 3)%nat \/
    (exists i r, (i < 3)%nat /\ values t !! i = Some r /\ den r = 0) in
  (malformed tlat ->
   extract_gps M locations skip_location_lookup sd tags
   = (None, None, None, false)) /\
  (forall la,
     dms_to_decimal (values tlat) (tag_ref tags "GPS GPSLatitudeRef")
     = Returns la ->
     malformed tlon ->
     extract_gps M locations skip_location_lookup sd tags
     = (Some la, None, None, false)).
Proof.
  intros Hlat Hlon malformed. unfold extract_gps. rewrite Hlat, Hlon. split.
  - intros Hbad.
    destruct (dms_malformed_raises (values tlat)
                (tag_ref tags "GPS GPSLatitudeRef") Hbad) as [e ->].
    done.
  - intros la -> Hbad.
    destruct (dms_malformed_raises (values tlon)
                (tag_ref tags "GPS GPSLongitudeRef") Hbad) as [e ->].
    done.
Qed.

(** X18: the hemisphere is taken from the text of the reference tags, and
    only the texts "S" and "W" negate: a photo without reference tags is
    read exactly as one whose reference tags hold any other text, "N" and "E"
    or lower-case "s" and "w" alike. *)
Theorem missing_reference_is_north_east (tags : gmap string IfdTag)
    (nref eref : IfdTag) :
  tags !! "GPS GPSLatitudeRef" = None ->
  tags !! "GPS GPSLongitudeRef" = None ->
  ref_is_south_or_west (printable nref) = false ->
  ref_is_south_or_west (printable eref) = false ->
  extract_gps M locations skip_location_lookup sd
    (<["GPS GPSLatitudeRef" := nref]> (<["GPS GPSLongitudeRef" := eref]> tags))
  = extract_gps M locations skip_location_lookup sd tags.
Proof.
  intros Hn He Hnref Heref. unfold extract_gps, tag_ref, tag_str.
  rewrite !lookup_insert_eq.
  rewrite (lookup_insert_ne _ "GPS GPSLatitudeRef" "GPS GPSLatitude") by done.
  rewrite (lookup_insert_ne _ "GPS GPSLongitudeRef" "GPS GPSLatitude") by done.
  rewrite (lookup_insert_ne _ "GPS GPSLatitudeRef" "GPS GPSLongitude") by done.
  rewrite (lookup_insert_ne _ "GPS GPSLongitudeRef" "GPS GPSLongitude") by done.
  rewrite (lookup_insert_ne _ "GPS GPSLatitudeRef" "GPS GPSLongitudeRef")
    by done.
  rewrite lookup_insert_eq, Hn, He. simpl.
  destruct (tags !! "GPS GPSLatitude") as [tlat|]; [|done].
  destruct (tags !! "GPS GPSLongitude") as [tlon|]; [|done].
  rewrite (dms_to_decimal_ref (values tlat) (printable nref) "None")
    by (by rewrite Hnref).
  rewrite (dms_to_decimal_ref (values tlon) (printable eref) "None")
    by (by rewrite Heref).
  done.
Qed.

End GpsBlock.

(** * Schema migration *)

Section Migration.

Import Schema.

Lemma pending_migrations_filter (columns : list string) :
  pending_migrations columns = filter (fun a => a ∉ columns) added_columns.
Proof.
  unfold pending_migrations, added_columns.
  rewrite !filter_cons, filter_nil.
  repeat case_bool_decide; repeat case_decide; done.
Qed.

Lemma pending_migrations_elem_of (columns : list string) a :
  a ∈ pending_migrations columns <-> a ∈ added_columns /\ a ∉ columns.
Proof.
  rewrite pending_migrations_filter, list_elem_of_filter. tauto.
Qed.

Lemma pending_migrations_NoDup (columns : list string) :
  NoDup (pending_migrations columns).
Proof.
  rewrite pending_migrations_filter. apply NoDup_filter.
  apply (bool_decide_unpack _). by vm_compute.
Qed.

(** The loop over the migrations applies a prefix of them, all of them
    unless a statement fails. *)
Lemma execute_all_spec ms : forall cols,
  exists applied rest,
    ms = applied ++ rest /\
    fst (execute_all ms cols) = cols ++ applied /\
    (snd (execute_all ms cols) = None -> rest = []) /\
    (forall e, snd (execute_all ms cols) = Some e ->
       exists c rest', rest = c :: rest' /\
                       add_column (cols ++ applied) c = Raises e).
Proof.
  induction ms as [|m ms IH]; intros cols; simpl.
  - exists [], []. split; [done|]. split; [by rewrite app_nil_r|].
    split; [done|]. intros e He. discriminate He.
  - destruct (add_column cols m) as [cols'|e'] eqn:Hadd; simpl.
    + assert (cols' = cols ++ [m]) as ->.
      { unfold add_column in Hadd. destruct cols; [done|].
        destruct (existsb _ _); [done|]. by injection Hadd as <-. }
      destruct (IH (cols ++ [m])) as (applied & rest & -> & Hf & Hn & Hs).
      exists (m :: applied), rest. rewrite Hf, <- app_assoc. simpl.
      split; [done|]. split; [done|]. split; [done|].
      intros e He. destruct (Hs e He) as (c & rest' & -> & Hc).
      exists c, rest'. by rewrite <- app_assoc in Hc.
    + exists [], (m :: ms). split; [done|].
      split; [by rewrite app_nil_r|]. split; [intros He; discriminate He|].
      intros e [= <-]. rewrite app_nil_r. eauto.
Qed.

Lemma existsb_same_column_false (c : string) (cols : list string) :
  (forall x, x ∈ cols -> same_column c x = false) ->
  existsb (same_column c) cols = false.
Proof.
  induction cols as [|x cols IH]; intros H; simpl; [done|].
  rewrite (H x) by apply list_elem_of_here. simpl.
  apply IH. intros y Hy. apply H. by apply list_elem_of_further.
Qed.

(** On a table that exists, and without a clash, every migration is
    applied. *)
Lemma execute_all_ok ms : forall cols,
  cols <> [] ->
  (forall m x, m ∈ ms -> x ∈ cols -> same_column m x = false) ->
  NoDup (name_lower <$> ms) ->
  execute_all ms cols = (cols ++ ms, None).
Proof.
  induction ms as [|m ms IH]; intros cols Hcols Hclash Hnd; simpl.
  - by rewrite app_nil_r.
  - unfold add_column. destruct cols as [|x0 cols0] eqn:Hc; [done|].
    rewrite <- Hc in *. clear Hc.
    rewrite existsb_same_column_false.
    2:{ intros x Hx. apply Hclash; [apply list_elem_of_here|done]. }
    rewrite fmap_cons in Hnd. apply NoDup_cons in Hnd as [Hm Hnd].
    rewrite IH, <- app_assoc; [done| | |done].
    + by destruct cols.
    + intros m' x Hm' [Hx| ->%list_elem_of_singleton]%elem_of_app.
      * apply Hclash; [by apply list_elem_of_further|done].
      * unfold same_column. apply bool_decide_eq_false. intros Heq.
        apply Hm. rewrite <- Heq. by apply list_elem_of_fmap_2.
Qed.

(** X19: the migration is additive: it keeps the columns of the table, in
    their order, and appends columns among the five it knows that were
    missing; and when it returns [True] it has appended at least one and all
    five are there. *)
Theorem migration_is_additive (columns : list string) :
  exists appended,
    fst (migrate_database columns) = columns ++ appended /\
    (forall a, a ∈ appended -> a ∈ added_columns /\ a ∉ columns) /\
    (snd (migrate_database columns) = true ->
     appended <> [] /\
     forall a, a ∈ added_columns -> a ∈ fst (migrate_database columns)).
Proof.
  unfold migrate_database.
  destruct (execute_all_spec (pending_migrations columns) columns)
    as (applied & rest & Hms & Hf & Hn & Hs).
  destruct (execute_all (pending_migrations columns) columns)
    as [cols' [e|]] eqn:Hrun; simpl in *.
  - exists applied. split; [done|]. split; [|done].
    intros a Ha. apply pending_migrations_elem_of. rewrite Hms.
    apply elem_of_app. by left.
  - exists applied. split; [done|]. rewrite (Hn eq_refl), app_nil_r in Hms.
    split.
    + intros a Ha. apply pending_migrations_elem_of. by rewrite Hms.
    + intros Hb. split.
      * intros ->. rewrite Hms in Hb. done.
      * intros a Ha. rewrite Hf, <- Hms.
        destruct (decide (a ∈ columns)) as [Hin|Hout].
        -- apply elem_of_app. by left.
        -- apply elem_of_app. right. by apply pending_migrations_elem_of.
Qed.

(** X20: when the table exists and no column of it differs from one of the
    five by case only, the migration appends exactly the missing ones, so
    that all five are there afterwards, and it returns [True] exactly when
    one was missing. *)
Theorem migration_adds_missing_columns (columns : list string) :
  columns <> [] ->
  no_case_clash columns ->
  fst (migrate_database columns) = columns ++ pending_migrations columns /\
  (forall a, a ∈ added_columns -> a ∈ fst (migrate_database columns)) /\
  (snd (migrate_database columns) = true <->
   exists a, a ∈ added_columns /\ a ∉ columns).
Proof.
  intros Hcols Hclash. unfold migrate_database.
  rewrite execute_all_ok.
  - simpl. split; [done|]. split.
    + intros a Ha. destruct (decide (a ∈ columns)) as [Hin|Hout].
      * apply elem_of_app. by left.
      * apply elem_of_app. right. by apply pending_migrations_elem_of.
    + destruct (pending_migrations columns) as [|m ms] eqn:Hms; simpl.
      * split; [done|]. intros (a & Ha & Hout).
        assert (a ∈ pending_migrations columns)
          by by apply pending_migrations_elem_of.
        rewrite Hms in H. by apply elem_of_nil in H.
      * split; [|done]. intros _. exists m.
        apply pending_migrations_elem_of. rewrite Hms.
        apply list_elem_of_here.
  - done.
  - intros m x [Hm Hout]%pending_migrations_elem_of Hx.
    destruct (same_column m x) eqn:Hsame; [|done].
    rewrite (Hclash x m Hx Hm Hsame) in Hx. done.
  - rewrite pending_migrations_filter.
    assert (Hall : NoDup (name_lower <$> added_columns)).
    { apply (bool_decide_unpack _). by vm_compute. }
    revert Hall. generalize added_columns.
    induction l as [|a l IH]; intros Hnd; [by constructor|].
    rewrite fmap_cons in Hnd. apply NoDup_cons in Hnd as [Ha Hnd].
    rewrite filter_cons. destruct (decide (a ∉ columns)); [|by apply IH].
    rewrite fmap_cons. apply NoDup_cons. split; [|by apply IH].
    intros Hin. apply Ha.
    apply list_elem_of_fmap in Hin as (y & Hy & Hin).
    apply list_elem_of_filter in Hin as [_ Hin].
    rewrite Hy. by apply list_elem_of_fmap_2.
Qed.

Lemma filter_none {A} (P : A -> Prop) `{forall x, Decision (P x)}
    (l : list A) :
  (forall x, x ∈ l -> ~ P x) -> filter P l = [].
Proof.
  induction l as [|x l IH]; intros Hl; [done|].
  rewrite filter_cons_False by (apply Hl, list_elem_of_here).
  apply IH. intros y Hy. by apply Hl, list_elem_of_further.
Qed.

Lemma filter_all {A} (P : A -> Prop) `{forall x, Decision (P x)}
    (l : list A) :
  (forall x, x ∈ l -> P x) -> filter P l = l.
Proof.
  induction l as [|x l IH]; intros Hl; [done|].
  rewrite filter_cons_True by (apply Hl, list_elem_of_here).
  f_equal. apply IH. intros y Hy. by apply Hl, list_elem_of_further.
Qed.

(** What is pending after a prefix of the pending migrations was applied is
    the rest of them. *)
Lemma pending_migrations_after (columns applied rest : list string) :
  pending_migrations columns = applied ++ rest ->
  pending_migrations (columns ++ applied) = rest.
Proof.
  intros Hms. pose proof (pending_migrations_NoDup columns) as Hnd.
  rewrite Hms in Hnd. apply NoDup_app in Hnd as (_ & Hdisj & _).
  rewrite pending_migrations_filter.
  rewrite (list_filter_iff _ (fun a => (a ∉ applied) /\ (a ∉ columns))).
  2:{ intros a. rewrite elem_of_app. tauto. }
  rewrite <- list_filter_filter, <- pending_migrations_filter, Hms.
  rewrite filter_app, filter_none, filter_all; [done| |].
  - intros x Hx Hin. by apply (Hdisj x).
  - intros x Hx Hout. by apply Hout.
Qed.

(** X21: migrating twice is migrating once: on the columns the first call
    left, a second call changes nothing and returns [False], also after a
    first call that a failing statement stopped half-way. *)
Theorem migration_is_idempotent (columns : list string) :
  migrate_database (fst (migrate_database columns))
  = (fst (migrate_database columns), false).
Proof.
  assert (Hfst : fst (migrate_database columns)
                 = fst (execute_all (pending_migrations columns) columns)).
  { unfold migrate_database.
    by destruct (execute_all (pending_migrations columns) columns)
      as [cols' [e|]]. }
  rewrite Hfst.
  destruct (execute_all_spec (pending_migrations columns) columns)
    as (applied & rest & Hms & Hf & Hn & Hs).
  rewrite Hf. unfold migrate_database.
  rewrite (pending_migrations_after _ _ _ Hms).
  destruct (snd (execute_all (pending_migrations columns) columns))
    as [e|] eqn:Hsnd.
  - destruct (Hs e eq_refl) as (c & rest' & -> & Hclash).
    simpl. by rewrite Hclash.
  - by rewrite (Hn eq_refl).
Qed.

End Migration.

(** * The database file name *)

Section DbFilename.

Import Paths.

Lemma string_app_cons (x : ascii) (a b : string) :
  String x a +:+ b = String x (a +:+ b).
Proof. done. Qed.

Lemma string_app_nonempty_l (a b : string) :
  a <> EmptyString -> a +:+ b <> EmptyString.
Proof. by destruct a. Qed.

Lemma string_app_nonempty_r (a b : string) :
  b <> EmptyString -> a +:+ b <> EmptyString.
Proof. by destruct a. Qed.

Lemma split_from_app_slash (a b : string) : forall acc,
  split_from acc (a +:+ "/" +:+ b) = split_from acc a ++ split_sep b.
Proof.
  induction a as [|x a IH]; intros acc.
  - done.
  - rewrite string_app_cons. simpl. case_bool_decide.
    + by rewrite IH.
    + apply IH.
Qed.

Lemma split_from_component (c : string) (k : nat) : forall acc,
  slash_free c = true ->
  split_from acc (c +:+ slashes k) = (acc +:+ c) :: repeat EmptyString k.
Proof.
  induction c as [|x c IH]; intros acc Hc.
  - change (EmptyString +:+ slashes k) with (slashes k).
    rewrite string_app_nil_r. clear Hc. revert acc.
    induction k as [|k IHk]; intros acc; [done|].
    simpl. by rewrite IHk.
  - rewrite string_app_cons. simpl in *.
    apply andb_true_iff in Hc as [Hx Hc].
    case_bool_decide; [done|].
    rewrite (IH _ Hc). by rewrite string_app_assoc.
Qed.

Lemma split_sep_path (parent c : string) (k : nat) :
  directory_prefix parent -> slash_free c = true ->
  exists comps,
    split_sep (parent +:+ c +:+ slashes k)
    = comps ++ c :: repeat EmptyString k.
Proof.
  intros [->|[q ->]] Hc.
  - exists []. apply (split_from_component c k EmptyString Hc).
  - exists (split_sep q). unfold split_sep at 1.
    rewrite string_app_assoc, split_from_app_slash. f_equal.
    apply (split_from_component c k EmptyString Hc).
Qed.

Lemma norm_step_empties (initial : nat) (k : nat) (comps : list string) :
  foldl (norm_step initial) comps (repeat EmptyString k) = comps.
Proof. induction k as [|k IH]; [done|]. simpl. apply IH. Qed.

Lemma norm_step_plain (initial : nat) (comps : list string) (c : string) :
  plain_component c -> norm_step initial comps c = comps ++ [c].
Proof.
  intros (H1 & H2 & H3 & _). unfold norm_step.
  rewrite !bool_decide_eq_false_2 by done. done.
Qed.

Lemma directory_prefix_slashes (k : nat) : directory_prefix (slashes k).
Proof.
  induction k as [|k IH]; [by left|]. right. simpl.
  destruct IH as [->|[q ->]].
  - by exists EmptyString.
  - by exists (String "/" q).
Qed.

Lemma directory_prefix_app (a b : string) :
  directory_prefix a -> directory_prefix b -> directory_prefix (a +:+ b).
Proof.
  intros Ha [->|[q ->]].
  - by rewrite string_app_nil_r.
  - right. exists (a +:+ q). by rewrite string_app_assoc.
Qed.

Lemma join_sep_snoc (comps : list string) (c : string) :
  exists a, directory_prefix a /\ join_sep (comps ++ [c]) = a +:+ c.
Proof.
  induction comps as [|y comps (a & Ha & IH)].
  - exists EmptyString. split; [by left|done].
  - exists (y +:+ "/" +:+ a). split.
    + rewrite <- string_app_assoc. apply directory_prefix_app; [|done].
      right. by exists y.
    + change (join_sep (y :: (comps ++ [c])) = (y +:+ "/" +:+ a) +:+ c).
      destruct (comps ++ [c]) as [|z rest] eqn:Heq.
      { by destruct comps. }
      change (y +:+ "/" +:+ join_sep (z :: rest) = (y +:+ "/" +:+ a) +:+ c).
      by rewrite IH, !string_app_assoc.
Qed.

Lemma basename_from_component (c : string) : forall acc,
  slash_free c = true -> Pipeline.basename_from acc c = acc +:+ c.
Proof.
  induction c as [|x c IH]; intros acc Hc; simpl in *.
  - by rewrite string_app_nil_r.
  - apply andb_true_iff in Hc as [Hx Hc]. case_bool_decide; [done|].
    rewrite (IH _ Hc). by rewrite string_app_assoc.
Qed.

Lemma basename_from_slash (q c : string) : forall acc,
  slash_free c = true -> Pipeline.basename_from acc (q +:+ "/" +:+ c) = c.
Proof.
  induction q as [|x q IH]; intros acc Hc.
  - change (Pipeline.basename_from EmptyString c = c).
    by rewrite basename_from_component.
  - rewrite string_app_cons. simpl. case_bool_decide; by apply IH.
Qed.

Lemma basename_last (a c : string) :
  directory_prefix a -> slash_free c = true ->
  Pipeline.basename (a +:+ c) = c.
Proof.
  intros [->|[q ->]] Hc; unfold Pipeline.basename.
  - by apply (basename_from_component c EmptyString).
  - rewrite string_app_assoc. by apply basename_from_slash.
Qed.

(** The normal form of a path that ends with a plain component, and any
    number of slashes after it, ends with that component. *)
Lemma normpath_last (parent c : string) (k : nat) :
  directory_prefix parent -> plain_component c ->
  exists a, directory_prefix a /\
            normpath (parent +:+ c +:+ slashes k) = a +:+ c.
Proof.
  intros Hp Hc. pose proof Hc as (Hne & _ & _ & Hfree).
  destruct (split_sep_path parent c k Hp Hfree) as [comps Hsplit].
  unfold normpath.
  destruct (parent +:+ c +:+ slashes k) as [|x path] eqn:Hpath.
  { exfalso. revert Hpath.
    by apply string_app_nonempty_r, string_app_nonempty_l. }
  rewrite Hsplit.
  change (comps ++ c :: repeat EmptyString k)
    with (comps ++ [c] ++ repeat EmptyString k).
  rewrite !foldl_app, norm_step_empties. simpl foldl.
  rewrite norm_step_plain by done.
  destruct (join_sep_snoc
              (foldl (norm_step (initial_slashes (String x path))) [] comps) c)
    as (a & Ha & ->).
  exists (slashes (initial_slashes (String x path)) +:+ a). split.
  - apply directory_prefix_app; [apply directory_prefix_slashes|done].
  - rewrite <- string_app_assoc.
    destruct ((slashes (initial_slashes (String x path)) +:+ a) +:+ c) eqn:Hres;
      [|done].
    exfalso. revert Hres. by apply string_app_nonempty_r.
Qed.

(** X22: the database is named after the last directory of the folder path:
    for a path that ends in a directory name (not [.] or [..]), whatever
    stands before it and however many slashes follow it, the file name is
    that name with [.db], and the default is not used. *)
Theorem db_filename_is_last_directory (parent c : string) (k : nat)
    (default_db : option string) :
  directory_prefix parent -> plain_component c ->
  get_db_filename_from_folder (parent +:+ c +:+ slashes k) default_db
  = c +:+ ".db".
Proof.
  intros Hp Hc. unfold get_db_filename_from_folder.
  destruct (normpath_last parent c k Hp Hc) as (a & Ha & ->).
  destruct Hc as (Hne & _ & _ & Hfree).
  rewrite (basename_last a c Ha Hfree).
  by destruct c.
Qed.

(** X23: for the root directory, written with any number of slashes, no name
    can be derived: the function returns the default it was given, or
    [photo_metadata.db] when that is [None] or empty. *)
Theorem db_filename_of_root (k : nat) (default_db : option string) :
  get_db_filename_from_folder (slashes (S k)) default_db
  = if str_truthy default_db then default EmptyString default_db
    else DB_FILE.
Proof.
  unfold get_db_filename_from_folder.
  assert (Hnorm : exists i, normpath (slashes (S k)) = slashes (S i)).
  { unfold normpath. change (slashes (S k)) with (String "/" (slashes k)).
    cbv beta iota zeta.
    assert (Hsplit : split_sep (String "/" (slashes k))
                     = repeat EmptyString (S (S k))).
    { apply (split_from_component EmptyString (S k) EmptyString eq_refl). }
    rewrite Hsplit.
    rewrite (norm_step_empties _ (S (S k)) []). simpl join_sep.
    rewrite string_app_nil_r.
    assert (Hi : exists i, initial_slashes (String "/" (slashes k)) = S i).
    { unfold initial_slashes. simpl.
      destruct (slashes k); simpl; [eauto|].
      destruct (_ && _); eauto. }
    destruct Hi as [i ->]. by exists i. }
  destruct Hnorm as [i ->].
  assert (Hbase : Pipeline.basename (slashes (S i)) = EmptyString).
  { rewrite <- (string_app_nil_r (slashes (S i))).
    apply basename_last; [apply directory_prefix_slashes|done]. }
  by rewrite Hbase.
Qed.

End DbFilename.

(** * Further worked examples *)

Section FurtherExamples.

Import Gazetteer Schema Paths.

Local Abbreviation buffer_50 := (S754_finite false 8114593923190083 (-54)).
Local Abbreviation km_11 := (S754_finite false 6259717877524055 (-49)).

Lemma interrupted_run_is_run_of_prefix_witness :
  exists st,
    process_images sampled_math (interrupted_world three_photos 3) []
      three_photos false true ∅ = (false, st) /\
    process_images sampled_math (interrupted_world three_photos 3) []
      (take 2 three_photos) false true ∅ = (true, st).
Proof.
  apply (interrupted_run_is_run_of_prefix sampled_math
           (interrupted_world three_photos 3) [] three_photos false true ∅ 2).
  - simpl. lia.
  - intros i Hi. destruct i as [|[|i]]; [reflexivity|reflexivity|lia].
  - reflexivity.
Defined.

Lemma run_counts_every_file_once_witness :
  fst interrupted_run = false /\
  image_count (snd interrupted_run) = 2%nat /\
  let run := process_images sampled_math (interrupted_world three_photos 3) []
               three_photos false true ∅ in
  let st := snd run in
  (image_count st + skipped_count st + Pipeline.error_count st)%nat
  = length (trace st) /\
  image_count st = count_actions stores_processed (trace st) /\
  skipped_count st = count_actions is_skipped (trace st) /\
  Pipeline.error_count st = count_actions is_error_action (trace st) /\
  (trace st).*1 = take (length (trace st)) three_photos /\
  (fst run = true ->
   (image_count st + skipped_count st + Pipeline.error_count st)%nat
   = length three_photos) /\
  (gps_count st <= image_count st)%nat /\
  (new_count st + updated_count st
   <= image_count st + Pipeline.error_count st)%nat.
Proof.
  split; [vm_compute; reflexivity|]. split; [vm_compute; reflexivity|].
  apply (run_counts_every_file_once sampled_math
           (interrupted_world three_photos 3) [] three_photos false true ∅).
  intros idx r. reflexivity.
Defined.

Lemma written_rows_gps_shape_witness :
  location (record_for sampled_math origin_world [place_C] false 1 photo_path)
  = Some "C, OH, US" /\
  (is_Some (gps_lat (record_for sampled_math origin_world [place_C] false 1
                       photo_path)) /\
   is_Some (gps_lon (record_for sampled_math origin_world [place_C] false 1
                       photo_path))) /\
  location (record_for sampled_math origin_world [place_C] true 1 photo_path)
  = None.
Proof.
  split; [vm_compute; reflexivity|]. split.
  - apply (written_rows_gps_shape sampled_math origin_world [place_C]
             [photo_path] false false ∅ photo_path
             (record_for sampled_math origin_world [place_C] false 1
                photo_path)).
    + vm_compute. apply list_elem_of_here.
    + exists "C, OH, US". vm_compute. reflexivity.
  - apply (written_rows_gps_shape sampled_math origin_world [place_C]
             [photo_path] false true ∅ photo_path
             (record_for sampled_math origin_world [place_C] true 1
                photo_path)).
    + vm_compute. apply list_elem_of_here.
    + reflexivity.
Defined.


Lemma unchanged_mtime_is_skipped_witness :
  file_hash stale_hash_record
  <> calculate_file_hash (one_file_world photo_path plain_file tuesday)
       photo_path /\
  exists st,
    process_images sampled_math (one_file_world photo_path plain_file tuesday)
      [] [photo_path] false false {[ photo_path := stale_hash_record ]}
    = (true, st) /\
    (forall i, [photo_path] !! i = Some photo_path ->
               trace st !! i = Some (photo_path, Skipped)) /\
    photos st !! photo_path = Some stale_hash_record.
Proof.
  split; [vm_compute; intros H; discriminate H|].
  apply (unchanged_mtime_is_skipped sampled_math
           (one_file_world photo_path plain_file tuesday) [] [photo_path]
           false false {[ photo_path := stale_hash_record ]} photo_path
           stale_hash_record).
  - intros i. reflexivity.
  - reflexivity.
  - apply lookup_singleton_eq.
  - reflexivity.
  - vm_compute. reflexivity.
  - vm_compute. reflexivity.
Defined.

Lemma complete_run_covers_existing_files_witness :
  exists st r,
    process_images sampled_math (one_file_world photo_path plain_file monday)
      [] [photo_path] false false ∅ = (true, st) /\
    photos st !! photo_path = Some r /\
    (status r = "processed" \/ status r = "failed").
Proof.
  apply (complete_run_covers_existing_files sampled_math
           (one_file_world photo_path plain_file monday) [] [photo_path]
           false false ∅ photo_path).
  - intros i. reflexivity.
  - intros idx r. reflexivity.
  - apply list_elem_of_here.
  - vm_compute. reflexivity.
Defined.

Lemma vanished_file_keeps_its_row_witness :
  exists st,
    process_images sampled_math (one_file_world photo_path plain_file monday)
      [] [vanished_path] false false {[ vanished_path := epoch_record ]}
    = (true, st) /\
    (forall i, [vanished_path] !! i = Some vanished_path ->
               trace st !! i = Some (vanished_path, Missing)) /\
    photos st !! vanished_path
    = ({[ vanished_path := epoch_record ]} : gmap string PhotoRecord)
        !! vanished_path /\
    (1 <= Pipeline.error_count st)%nat.
Proof.
  apply (vanished_file_keeps_its_row sampled_math
           (one_file_world photo_path plain_file monday) [] [vanished_path]
           false false {[ vanished_path := epoch_record ]} vanished_path).
  - intros i. reflexivity.
  - apply list_elem_of_here.
  - vm_compute. reflexivity.
Defined.

Lemma missing_id_only_on_blank_line_witness :
  split_tab (strip "   ") = [EmptyString].
Proof.
  apply (missing_id_only_on_blank_line digits_only "   ").
  vm_compute. reflexivity.
Defined.

Lemma import_result_shape_witness :
  let st := snd (import_locations_to_db digits_only (fun _ => false) []
                   (Some [paris_line; lyon_as_paris_line])) in
  NoDup (geonameid <$> rows st) /\
  committed st = rows st /\
  (forall r, r ∈ rows st ->
             r ∈ [] \/ (geonameid r <> 0 /\ in_int64 (geonameid r))) /\
  (imported_count st + error_count st
   <= length (default [] (Some [paris_line; lyon_as_paris_line])))%nat /\
  (length (rows st) <= length (@nil LocationRow) + imported_count st)%nat.
Proof.
  apply (import_result_shape digits_only (fun _ => false) []
           (Some [paris_line; lyon_as_paris_line])).
  simpl. apply NoDup_nil_2.
Defined.


Lemma found_place_is_a_row_within_radius_witness :
  exists buffers c d,
    box_buffers sampled_math zero (of_Z 50) = Returns buffers /\
    c ∈ [place_C] /\ c ∈ box_candidates [place_C] zero zero buffers /\
    distance_to sampled_math zero zero c = Returns d /\
    fleb d (of_Z 50) = true /\
    str_truthy (name c) = true /\
    format_location_string (name c) (admin1_code c) (country_code c)
    = Some "C, OH, US".
Proof.
  apply (found_place_is_a_row_within_radius sampled_math zero zero [place_C]
           (of_Z 50) never "C, OH, US").
  vm_compute. reflexivity.
Defined.

Lemma first_of_equally_near_wins_witness :
  find_nearest_location sampled_math zero zero [place_C; place_D] (of_Z 50)
    never
  = Returns (if fleb km_11 (of_Z 50)
             then format_location_string (name place_C) (admin1_code place_C)
                    (country_code place_C)
             else None).
Proof.
  apply (first_of_equally_near_wins sampled_math zero zero [place_C; place_D]
           (of_Z 50) (buffer_50, buffer_50) place_C [place_D] km_11).
  - vm_compute. reflexivity.
  - vm_compute. reflexivity.
  - vm_compute. reflexivity.
  - vm_compute. reflexivity.
  - intros c' Hc'. apply list_elem_of_singleton in Hc' as ->.
    exists km_11. split; vm_compute; reflexivity.
Defined.

Lemma malformed_gps_is_swallowed_witness :
  extract_gps sampled_math [] false never broken_longitude_tags
  = (Some (S754_finite false 5503272080907227 (-47)), None, None, false).
Proof.
  apply (proj2 (malformed_gps_is_swallowed sampled_math [] false never
                  broken_longitude_tags latitude_tag broken_tag
                  eq_refl eq_refl)).
  - vm_compute. reflexivity.
  - right. exists 2%nat, {| num := 0; den := 0 |}.
    split; [lia|]. split; reflexivity.
Defined.

Lemma missing_reference_is_north_east_witness :
  extract_gps sampled_math [] true never
    (<["GPS GPSLatitudeRef" := reference_tag "N"]>
       (<["GPS GPSLongitudeRef" := reference_tag "w"]> broken_longitude_tags))
  = extract_gps sampled_math [] true never broken_longitude_tags.
Proof.
  apply (missing_reference_is_north_east sampled_math [] true never
           broken_longitude_tags (reference_tag "N") (reference_tag "w"));
    vm_compute; reflexivity.
Defined.

Lemma no_case_clashb_sound (columns : list string) :
  no_case_clashb columns = true -> no_case_clash columns.
Proof.
  unfold no_case_clashb, no_case_clash. intros H c a Hc Ha Hsame.
  rewrite forallb_forall in H.
  specialize (H c (proj1 (list_elem_of_In _ _) Hc)).
  rewrite forallb_forall in H.
  specialize (H a (proj1 (list_elem_of_In _ _) Ha)).
  rewrite Hsame in H. simpl in H. by apply bool_decide_eq_true in H.
Qed.

Lemma migration_adds_missing_columns_witness :
  fst (migrate_database legacy_columns)
  = legacy_columns ++ pending_migrations legacy_columns /\
  (forall a, a ∈ added_columns -> a ∈ fst (migrate_database legacy_columns)) /\
  (snd (migrate_database legacy_columns) = true <->
   exists a, a ∈ added_columns /\ a ∉ legacy_columns).
Proof.
  apply (migration_adds_missing_columns legacy_columns).
  - discriminate.
  - apply no_case_clashb_sound. vm_compute. reflexivity.
Defined.

Lemma db_filename_is_last_directory_witness :
  get_db_filename_from_folder "/path/to/image/library7/" None = "library7.db".
Proof.
  apply (db_filename_is_last_directory "/path/to/image/" "library7" 1 None).
  - right. by exists "/path/to/image".
  - unfold plain_component. repeat split; done.
Defined.

End FurtherExamples.
